(** * srpc: [rpc_span.h]

    A shallow embedding of the identifier generator [SnowFlake], the span
    record [RPCSpan], the logging task [RPCSpanLogTask] and the default span
    logger [RPCSpanLoggerDefault] of [src/rpc_span.h], with the properties
    of the design document stated over it.

    Conventions.
    - [uint64_t], [uint32_t] and [unsigned int] values are integers of [Z];
      every operation that can leave the range has its wrap-around written
      out ([wrap64], [wrap32]).
    - [clock_gettime(CLOCK_MONOTONIC, &ts)] is an input of the function that
      calls it: the [timespec] it filled in is passed as an argument.
    - A member function that updates the object returns the updated object
      next to its result.
    - Operations whose behaviour C++ leaves undefined are partial
      ([option]): [1 << n] on [int] ([shl_int_one]) and writing past the end
      of the formatting buffer ([sprintf_at]).
    - Calls run one at a time: the [std::atomic] members are read and
      written in program order, and no two calls interleave.
    - Of the task machinery only what reaches [stderr] is kept: the
      scheduler, [done()] and the release of the span are outside the
      model. *)

From Stdlib Require Import ZArith Lia Bool List String Ascii.
From Stdlib Require Nnat Decimal DecimalFacts DecimalPos DecimalN.
From Stdlib Require Import DecimalString Sorted.
Import ListNotations.

Local Open Scope Z_scope.

(** ** Machine integers *)

Definition wrap64 (x : Z) : Z := x mod 2 ^ 64.
Definition wrap32 (x : Z) : Z := x mod 2 ^ 32.

(** [x << n] on [uint64_t]; C++ defines it for [n < 64]. *)
Definition shl64 (x n : Z) : Z := wrap64 (Z.shiftl x n).

(** [1 << n] where [1] is an [int] and [n] a [uint64_t], converted to
    [uint64_t]: the shift is done in 32-bit signed arithmetic, so it is
    defined only while the result fits, that is for [n <= 30]. *)
Definition shl_int_one (n : Z) : option Z :=
  if (0 <=? n) && (n <=? 30) then Some (Z.shiftl 1 n) else None.

(** ** The clock *)

Record timespec : Set := mk_timespec { tv_sec : Z; tv_nsec : Z }.

(** [ts.tv_sec * 1000 + ts.tv_nsec / 1000000] stored in a [uint64_t]
    ([/] of C++ truncates toward zero). *)
Definition millis (ts : timespec) : Z :=
  wrap64 (tv_sec ts * 1000 + Z.quot (tv_nsec ts) 1000000).

(** ** [class SnowFlake] *)

Definition TIMESTAMP_BITS : Z := 37.
Definition GROUP_BITS : Z := 5.
Definition MACHINE_BITS : Z := 10.
Definition TOTAL_BITS : Z := 64.

Record SnowFlake : Set := mk_SnowFlake {
  last_timestamp : Z;
  sequence : Z;
  timestamp_bits : Z;
  group_bits : Z;
  machine_bits : Z;
  sequence_bits : Z;
  group_id_max : Z;
  machine_id_max : Z;
  sequence_max : Z;
  timestamp_shift : Z;
  group_shift : Z;
  machine_shift : Z
}.

Definition set_sequence (sf : SnowFlake) (v : Z) : SnowFlake :=
  mk_SnowFlake (last_timestamp sf) v
    (timestamp_bits sf) (group_bits sf) (machine_bits sf) (sequence_bits sf)
    (group_id_max sf) (machine_id_max sf) (sequence_max sf)
    (timestamp_shift sf) (group_shift sf) (machine_shift sf).

Definition set_last_timestamp (sf : SnowFlake) (v : Z) : SnowFlake :=
  mk_SnowFlake v (sequence sf)
    (timestamp_bits sf) (group_bits sf) (machine_bits sf) (sequence_bits sf)
    (group_id_max sf) (machine_id_max sf) (sequence_max sf)
    (timestamp_shift sf) (group_shift sf) (machine_shift sf).

(** [SnowFlake(timestamp_bits, group_bits, machine_bits)]. The three
    arguments are [uint64_t] values. *)
Definition SnowFlake_new (tb gb mb : Z) : option SnowFlake :=
  let sb := wrap64 (TOTAL_BITS - tb - gb - mb) in
  match shl_int_one gb, shl_int_one mb, shl_int_one sb with
  | Some gmax, Some mmax, Some smax =>
      let mshift := sb in
      let gshift := wrap64 (mshift + mb) in
      let tshift := wrap64 (gshift + gb) in
      Some (mk_SnowFlake 1 0 tb gb mb sb gmax mmax smax tshift gshift mshift)
  | _, _, _ => None
  end.

(** [SnowFlake()]. *)
Definition SnowFlake_default : option SnowFlake :=
  SnowFlake_new TIMESTAMP_BITS GROUP_BITS MACHINE_BITS.

(** The value stored in [*uid]. *)
Definition pack_uid (sf : SnowFlake) (timestamp group_id machine_id seq_id : Z)
  : Z :=
  Z.lor (Z.lor (Z.lor (shl64 timestamp (timestamp_shift sf))
                      (shl64 group_id (group_shift sf)))
               (shl64 machine_id (machine_shift sf)))
        seq_id.

(** The tail of [get_uid], from [seq_id = this->sequence++] on. *)
Definition emit_uid (sf : SnowFlake) (timestamp group_id machine_id : Z)
  : SnowFlake * option Z :=
  let seq_id := sequence sf in
  let sf1 := set_sequence sf (wrap64 (sequence sf + 1)) in
  let sf2 := set_last_timestamp sf1 timestamp in
  (sf2, Some (pack_uid sf2 timestamp group_id machine_id seq_id)).

(** [bool get_uid(group_id, machine_id, uint64_t *uid)]: the result is
    [Some uid] when the function returns [true] (and has stored [uid]), and
    [None] when it returns [false]. [ts] is what [clock_gettime] read. *)
Definition get_uid (sf : SnowFlake) (ts : timespec) (group_id machine_id : Z)
  : SnowFlake * option Z :=
  if (group_id >? machine_id_max sf) || (machine_id >? machine_id_max sf)
  then (sf, None)
  else
    let timestamp := millis ts in
    if timestamp <? last_timestamp sf then (sf, None)
    else if timestamp =? last_timestamp sf then
      let sf1 := set_sequence sf (wrap64 (sequence sf + 1)) in
      if sequence sf1 >? sequence_max sf1 then (sf1, None)
      else emit_uid sf1 timestamp group_id machine_id
    else emit_uid (set_sequence sf 0) timestamp group_id machine_id.

(** A run of [get_uid] calls on one instance: each call comes with the
    clock value it reads and its two arguments. The results are listed in
    call order. *)
Fixpoint get_uids (sf : SnowFlake) (calls : list (timespec * Z * Z))
  : SnowFlake * list (option Z) :=
  match calls with
  | [] => (sf, [])
  | (ts, g, m) :: rest =>
      let (sf1, r) := get_uid sf ts g m in
      let (sf2, rs) := get_uids sf1 rest in
      (sf2, r :: rs)
  end.

(** The identifiers a run returned, in call order. *)
Definition successes (rs : list (option Z)) : list Z :=
  flat_map (fun r => match r with Some uid => [uid] | None => [] end) rs.

(** The clock value a call of a run reads. *)
Definition clock_of (c : timespec * Z * Z) : Z := millis (fst (fst c)).

(** A call whose ids are below the maxima of their own fields and whose
    clock value fits the timestamp field. *)
Definition fits_fields (sf : SnowFlake) (c : timespec * Z * Z) : Prop :=
  0 <= snd (fst c) < group_id_max sf /\
  0 <= snd c < machine_id_max sf /\
  clock_of c < 2 ^ timestamp_bits sf.

(** Whether a call returned an identifier. *)
Definition returned (r : option Z) : bool :=
  match r with Some _ => true | None => false end.

(** Calls that read the millisecond [t] and pass the id check. *)
Definition burst_at (sf : SnowFlake) (t : Z)
  (calls : list (timespec * Z * Z)) : Prop :=
  Forall (fun c => clock_of c = t /\
                   snd (fst c) <= machine_id_max sf /\
                   snd c <= machine_id_max sf) calls.

(** The layout the constructor establishes, for the field widths on which
    both the constructor and the shifts of [get_uid] are defined: every
    [1 << bits] fits an [int], the timestamp shift is below 64, and the
    group and machine fields are not both empty. *)
Definition layout_ok (sf : SnowFlake) : Prop :=
  1 <= timestamp_bits sf /\
  0 <= group_bits sf <= 30 /\
  0 <= machine_bits sf <= 30 /\
  0 <= sequence_bits sf <= 30 /\
  1 <= group_bits sf + machine_bits sf /\
  timestamp_bits sf + group_bits sf + machine_bits sf + sequence_bits sf
    = TOTAL_BITS /\
  group_id_max sf = 2 ^ group_bits sf /\
  machine_id_max sf = 2 ^ machine_bits sf /\
  sequence_max sf = 2 ^ sequence_bits sf /\
  machine_shift sf = sequence_bits sf /\
  group_shift sf = machine_shift sf + machine_bits sf /\
  timestamp_shift sf = group_shift sf + group_bits sf.

(** Two instances with the same configuration. *)
Definition same_layout (sf sf' : SnowFlake) : Prop :=
  timestamp_bits sf' = timestamp_bits sf /\
  group_bits sf' = group_bits sf /\
  machine_bits sf' = machine_bits sf /\
  sequence_bits sf' = sequence_bits sf /\
  group_id_max sf' = group_id_max sf /\
  machine_id_max sf' = machine_id_max sf /\
  sequence_max sf' = sequence_max sf /\
  timestamp_shift sf' = timestamp_shift sf /\
  group_shift sf' = group_shift sf /\
  machine_shift sf' = machine_shift sf.

(** The two mutable members hold [uint64_t] values. *)
Definition state_ok (sf : SnowFlake) : Prop :=
  0 <= last_timestamp sf < 2 ^ 64 /\ 0 <= sequence sf < 2 ^ 64.

(** Reading the fields of an identifier back. The source has no decoder;
    these follow the design document: the same shift constants that packed
    the identifier, and the field maxima as masks. *)
Definition decode_timestamp (sf : SnowFlake) (uid : Z) : Z :=
  Z.shiftr uid (timestamp_shift sf).
Definition decode_group (sf : SnowFlake) (uid : Z) : Z :=
  Z.land (Z.shiftr uid (group_shift sf)) (group_id_max sf - 1).
Definition decode_machine (sf : SnowFlake) (uid : Z) : Z :=
  Z.land (Z.shiftr uid (machine_shift sf)) (machine_id_max sf - 1).
Definition decode_sequence (sf : SnowFlake) (uid : Z) : Z :=
  Z.land uid (sequence_max sf - 1).

(** The instance [SnowFlake()] builds, written out. *)
Definition default_snowflake : SnowFlake :=
  mk_SnowFlake 1 0 37 5 10 12 32 1024 4096 27 22 12.

(** ** Constants of the srpc headers

    [rpc_span.h] uses five constants that another header of the library
    declares: the three "unset" sentinels, the default span limit and the
    size of the formatting buffer. They are parameters of the development:
    nothing below depends on their values. *)
Class RpcBasic : Set := {
  UINT64_UNSET : Z;          (* sentinel of the [uint64_t] fields *)
  UINT_UNSET : Z;            (* sentinel of the [uint32_t] fields *)
  INT_UNSET : Z;             (* sentinel of the [int] fields *)
  SPAN_LIMIT_DEFAULT : Z;    (* [unsigned int] *)
  SPAN_LOG_MAX_LENGTH : nat  (* size of [char str[]] in [dispatch] *)
}.

(** ** [class RPCSpan] *)

Record RPCSpan : Set := mk_RPCSpan {
  trace_id : Z;
  span_id : Z;
  parent_span_id : Z;
  service_name : string;
  method_name : string;
  data_type : Z;
  compress_type : Z;
  start_time : Z;
  end_time : Z;
  cost : Z;
  remote_ip : string;
  status : Z;
  error : Z
}.

Section Span.
Context {K : RpcBasic}.

(** [RPCSpan()]. The member initialiser list names eleven of the thirteen
    members; [status] and [error] are not in it and the constructor body
    is empty, so the two keep whatever the storage of the object held:
    [status0] and [error0] stand for those indeterminate values. *)
Definition RPCSpan_new (status0 error0 : Z) : RPCSpan :=
  mk_RPCSpan UINT64_UNSET UINT_UNSET UINT_UNSET EmptyString EmptyString
    INT_UNSET INT_UNSET UINT64_UNSET UINT64_UNSET UINT64_UNSET EmptyString
    status0 error0.

End Span.

Definition set_trace_id (sp : RPCSpan) (id : Z) : RPCSpan :=
  mk_RPCSpan id (span_id sp) (parent_span_id sp) (service_name sp)
    (method_name sp) (data_type sp) (compress_type sp) (start_time sp)
    (end_time sp) (cost sp) (remote_ip sp) (status sp) (error sp).

Definition set_span_id (sp : RPCSpan) (id : Z) : RPCSpan :=
  mk_RPCSpan (trace_id sp) id (parent_span_id sp) (service_name sp)
    (method_name sp) (data_type sp) (compress_type sp) (start_time sp)
    (end_time sp) (cost sp) (remote_ip sp) (status sp) (error sp).

Definition set_parent_span_id (sp : RPCSpan) (id : Z) : RPCSpan :=
  mk_RPCSpan (trace_id sp) (span_id sp) id (service_name sp)
    (method_name sp) (data_type sp) (compress_type sp) (start_time sp)
    (end_time sp) (cost sp) (remote_ip sp) (status sp) (error sp).

Definition set_service_name (sp : RPCSpan) (name : string) : RPCSpan :=
  mk_RPCSpan (trace_id sp) (span_id sp) (parent_span_id sp) name
    (method_name sp) (data_type sp) (compress_type sp) (start_time sp)
    (end_time sp) (cost sp) (remote_ip sp) (status sp) (error sp).

Definition set_method_name (sp : RPCSpan) (name : string) : RPCSpan :=
  mk_RPCSpan (trace_id sp) (span_id sp) (parent_span_id sp) (service_name sp)
    name (data_type sp) (compress_type sp) (start_time sp)
    (end_time sp) (cost sp) (remote_ip sp) (status sp) (error sp).

Definition set_start_time (sp : RPCSpan) (time : Z) : RPCSpan :=
  mk_RPCSpan (trace_id sp) (span_id sp) (parent_span_id sp) (service_name sp)
    (method_name sp) (data_type sp) (compress_type sp) time
    (end_time sp) (cost sp) (remote_ip sp) (status sp) (error sp).

Definition set_end_time (sp : RPCSpan) (time : Z) : RPCSpan :=
  mk_RPCSpan (trace_id sp) (span_id sp) (parent_span_id sp) (service_name sp)
    (method_name sp) (data_type sp) (compress_type sp) (start_time sp)
    time (cost sp) (remote_ip sp) (status sp) (error sp).

Definition set_cost (sp : RPCSpan) (time : Z) : RPCSpan :=
  mk_RPCSpan (trace_id sp) (span_id sp) (parent_span_id sp) (service_name sp)
    (method_name sp) (data_type sp) (compress_type sp) (start_time sp)
    (end_time sp) time (remote_ip sp) (status sp) (error sp).

Definition set_remote_ip (sp : RPCSpan) (ip : string) : RPCSpan :=
  mk_RPCSpan (trace_id sp) (span_id sp) (parent_span_id sp) (service_name sp)
    (method_name sp) (data_type sp) (compress_type sp) (start_time sp)
    (end_time sp) (cost sp) ip (status sp) (error sp).

Definition set_data_type (sp : RPCSpan) (type : Z) : RPCSpan :=
  mk_RPCSpan (trace_id sp) (span_id sp) (parent_span_id sp) (service_name sp)
    (method_name sp) type (compress_type sp) (start_time sp)
    (end_time sp) (cost sp) (remote_ip sp) (status sp) (error sp).

Definition set_compress_type (sp : RPCSpan) (type : Z) : RPCSpan :=
  mk_RPCSpan (trace_id sp) (span_id sp) (parent_span_id sp) (service_name sp)
    (method_name sp) (data_type sp) type (start_time sp)
    (end_time sp) (cost sp) (remote_ip sp) (status sp) (error sp).

Definition set_status (sp : RPCSpan) (stat : Z) : RPCSpan :=
  mk_RPCSpan (trace_id sp) (span_id sp) (parent_span_id sp) (service_name sp)
    (method_name sp) (data_type sp) (compress_type sp) (start_time sp)
    (end_time sp) (cost sp) (remote_ip sp) stat (error sp).

Definition set_error (sp : RPCSpan) (err : Z) : RPCSpan :=
  mk_RPCSpan (trace_id sp) (span_id sp) (parent_span_id sp) (service_name sp)
    (method_name sp) (data_type sp) (compress_type sp) (start_time sp)
    (end_time sp) (cost sp) (remote_ip sp) (status sp) err.

(** ** Formatting *)

Local Open Scope string_scope.

Definition NUL : ascii := Ascii.zero.
Definition LF : ascii := "010"%char.

(** [std::string::c_str()] read by a [%s] conversion: the characters before
    the first NUL. *)
Fixpoint c_str (s : string) : string :=
  match s with
  | EmptyString => EmptyString
  | String c rest => if Ascii.eqb c NUL then EmptyString
                     else String c (c_str rest)
  end.

(** The conversions [%llu] and [%u] of an unsigned value: its decimal
    digits. *)
Definition fmt_unsigned (v : Z) : string :=
  NilZero.string_of_uint (N.to_uint (Z.to_N v)).

(** A small error monad for the calls that may write past the buffer. *)
Definition bind {A B : Type} (a : option A) (f : A -> option B) : option B :=
  match a with
  | Some x => f x
  | None => None
  end.

Notation "x <- a ;; b" := (bind a (fun x => b))
  (at level 61, a at next level, right associativity).
Notation "' pat <- a ;; b" := (bind a (fun x => match x with pat => b end))
  (at level 61, pat pattern, a at next level, right associativity).

Section LogTask.
Context {K : RpcBasic}.

(** [sprintf(str + off, ...)] where the conversions produce [text], on a
    buffer whose C string is [buf]. The call stores [text] and a NUL from
    offset [off] on, which is defined only while they fit the
    [SPAN_LOG_MAX_LENGTH] bytes of [str]; it returns the number of
    characters of [text]. The buffer starts zeroed, so a write that begins
    after the end of the current C string stays invisible to a later
    [%s]. *)
Definition sprintf_at (buf : string) (off : nat) (text : string)
  : option (string * nat) :=
  if (off + String.length text + 1 <=? SPAN_LOG_MAX_LENGTH)%nat then
    Some (if (off <=? String.length buf)%nat
          then substring 0 off buf ++ text else buf,
          String.length text)
  else None.

(** What the four [sprintf] calls of [dispatch] produce from their format
    strings and arguments. *)
Definition head_text (span : RPCSpan) : string :=
  "trace_id:" ++ fmt_unsigned (trace_id span)
  ++ " span_id:" ++ fmt_unsigned (span_id span)
  ++ " service:" ++ c_str (service_name span)
  ++ " method:" ++ c_str (method_name span)
  ++ " start:" ++ fmt_unsigned (start_time span).

Definition parent_text (span : RPCSpan) : string :=
  " parent_span_id:" ++ fmt_unsigned (parent_span_id span).

Definition end_text (span : RPCSpan) : string :=
  " end_time:" ++ fmt_unsigned (end_time span).

Definition cost_text (span : RPCSpan) : string :=
  " cost:" ++ fmt_unsigned (cost span)
  ++ " remote_ip:" ++ c_str (remote_ip span).

(** [RPCSpanLogTask::dispatch()]. [err] is what has been written to
    [stderr] so far, one element per [fprintf] call; the result is [None]
    when a [sprintf] overruns [str]. *)
Definition dispatch (span : RPCSpan) (err : list string)
  : option (list string) :=
  let str := EmptyString in
  '(str, ret) <- sprintf_at str 0 (head_text span) ;;
  '(str, ret) <-
      (if negb (parent_span_id span =? UINT_UNSET)%Z then
         '(str', n) <- sprintf_at str ret (parent_text span) ;;
         Some (str', (ret + n)%nat)
       else Some (str, ret)) ;;
  '(str, ret) <-
      (if negb (end_time span =? UINT64_UNSET)%Z then
         '(str', n) <- sprintf_at str ret (end_text span) ;;
         Some (str', (ret + n)%nat)
       else Some (str, ret)) ;;
  '(str, ret) <-
      (if negb (cost span =? UINT64_UNSET)%Z then
         '(str', n) <- sprintf_at str ret (cost_text span) ;;
         Some (str', (ret + n)%nat)
       else Some (str, ret)) ;;
  Some (err ++ [("[SPAN_LOG] " ++ str ++ String LF EmptyString)%string])%list.

(** The text [dispatch] has formatted when it reaches [fprintf]. *)
Definition formatted (span : RPCSpan) : string :=
  head_text span
  ++ (if (parent_span_id span =? UINT_UNSET)%Z then EmptyString
      else parent_text span)
  ++ (if (end_time span =? UINT64_UNSET)%Z then EmptyString
      else end_text span)
  ++ (if (cost span =? UINT64_UNSET)%Z then EmptyString else cost_text span).

(** The tasks a logger hands to the scheduler: an [RPCSpanLogTask] that
    owns its span, or the empty task of [WFTaskFactory]. *)
Inductive SubTask : Set :=
| LogTask (span : RPCSpan)
| EmptyTask.

(** Running a task to completion, seen from [stderr]. *)
Definition run_task (t : SubTask) (err : list string)
  : option (list string) :=
  match t with
  | LogTask span => dispatch span err
  | EmptyTask => Some err
  end.

(** ** [class RPCSpanLoggerDefault] *)

Record RPCSpanLoggerDefault : Set := mk_logger {
  span_limit : Z;
  span_timestamp : Z;
  span_count : Z
}.

Definition RPCSpanLoggerDefault_new : RPCSpanLoggerDefault :=
  mk_logger SPAN_LIMIT_DEFAULT 0 0.

Definition set_span_limit (lg : RPCSpanLoggerDefault) (limit : Z)
  : RPCSpanLoggerDefault :=
  mk_logger limit (span_timestamp lg) (span_count lg).

(** [bool filter(RPCSpan *span)]; [ts] is what [clock_gettime] read. *)
Definition filter (lg : RPCSpanLoggerDefault) (ts : timespec) (span : RPCSpan)
  : RPCSpanLoggerDefault * bool :=
  let timestamp := millis ts in
  if ((timestamp =? span_timestamp lg)%Z
        && (span_count lg <? span_limit lg)%Z)
     || negb (trace_id span =? UINT64_UNSET)%Z
  then
    (mk_logger (span_limit lg) (span_timestamp lg)
       (wrap32 (span_count lg + 1)), true)
  else if (timestamp >? span_timestamp lg)%Z then
    (mk_logger (span_limit lg) timestamp 0, true)
  else (lg, false).

(** [RPCSpanLogger::create_log_task]: the base logger drops the span. *)
Definition RPCSpanLogger_create_log_task (take : RPCSpan) : SubTask :=
  EmptyTask.

(** [RPCSpanLoggerDefault::create_log_task]. *)
Definition create_log_task (lg : RPCSpanLoggerDefault) (ts : timespec)
  (take : RPCSpan) : RPCSpanLoggerDefault * SubTask :=
  let (lg1, ok) := filter lg ts take in
  if ok then (lg1, LogTask take) else (lg1, EmptyTask).

(** Spans submitted to [filter] one after the other, each with the clock
    value its call reads; the decisions are listed in submission order. *)
Fixpoint filters (lg : RPCSpanLoggerDefault)
  (calls : list (timespec * RPCSpan)) : RPCSpanLoggerDefault * list bool :=
  match calls with
  | [] => (lg, [])
  | (ts, span) :: rest =>
      let (lg1, ok) := filter lg ts span in
      let (lg2, oks) := filters lg1 rest in
      (lg2, ok :: oks)
  end%list.

(** Submissions that all read the millisecond [t] from the clock and carry
    the unset trace id. *)
Definition unset_within (t : Z) (calls : list (timespec * RPCSpan)) : Prop :=
  Forall (fun c => millis (fst c) = t /\ trace_id (snd c) = UINT64_UNSET)
         calls.

(** How many of the submissions were accepted although they read the
    millisecond [t] and carry the unset trace id. *)
Fixpoint unforced_accepted_at (t : Z) (calls : list (timespec * RPCSpan))
  (oks : list bool) : Z :=
  match calls, oks with
  | ((ts, span) :: calls')%list, (ok :: oks')%list =>
      ((if ok && (millis ts =? t) && (trace_id span =? UINT64_UNSET)
        then 1 else 0) + unforced_accepted_at t calls' oks')%Z
  | _, _ => 0%Z
  end.

(** What is left, in a given sampler state, of the budget of millisecond
    [t]. *)
Definition room (lg : RPCSpanLoggerDefault) (t : Z) : Z :=
  (if span_timestamp lg <? t then span_limit lg + 1
   else if span_timestamp lg =? t
        then Z.max 0 (span_limit lg - span_count lg)
        else 0)%Z.

(** ** The record format of the design document

    The record as the document describes it: [key:value] tokens separated
    by one space, behind the tag of the record type; five tokens that are
    always there, then the optional ones. *)
Definition token (key value : string) : string := key ++ ":" ++ value.

Definition mandatory_fields (span : RPCSpan) : list (string * string) :=
  [ ("trace_id", fmt_unsigned (trace_id span));
    ("span_id", fmt_unsigned (span_id span));
    ("service", c_str (service_name span));
    ("method", c_str (method_name span));
    ("start", fmt_unsigned (start_time span)) ]%list.

Definition parent_fields (span : RPCSpan) : list (string * string) :=
  if (parent_span_id span =? UINT_UNSET)%Z then []
  else [ ("parent_span_id", fmt_unsigned (parent_span_id span)) ]%list.

Definition end_fields (span : RPCSpan) : list (string * string) :=
  if (end_time span =? UINT64_UNSET)%Z then []
  else [ ("end_time", fmt_unsigned (end_time span)) ]%list.

Definition cost_fields (span : RPCSpan) : list (string * string) :=
  if (cost span =? UINT64_UNSET)%Z then []
  else [ ("cost", fmt_unsigned (cost span));
         ("remote_ip", c_str (remote_ip span)) ]%list.

Definition record_fields (span : RPCSpan) : list (string * string) :=
  (mandatory_fields span ++ parent_fields span ++ end_fields span
     ++ cost_fields span)%list.

Definition record_body (span : RPCSpan) : string :=
  String.concat " " (map (fun kv => token (fst kv) (snd kv))
                         (record_fields span)).

Definition record_line (span : RPCSpan) : string :=
  "[SPAN_LOG] " ++ record_body span ++ String LF EmptyString.

End LogTask.


(** One choice of the constants, for the concrete runs below: all-ones
    sentinels for the unsigned fields, the largest [int] for the signed
    ones, one span per millisecond and a buffer of 1024 bytes. *)
Definition srpc_basic : RpcBasic :=
  {| UINT64_UNSET := 2 ^ 64 - 1;
     UINT_UNSET := 2 ^ 32 - 1;
     INT_UNSET := 2 ^ 31 - 1;
     SPAN_LIMIT_DEFAULT := 1;
     SPAN_LOG_MAX_LENGTH := 1024 |}.

Local Close Scope string_scope.

(** * Properties *)

Example SnowFlake_default_eq : SnowFlake_default = Some default_snowflake.
Proof. reflexivity. Qed.

(** ** Bit-level facts used by the identifier layout *)

Section Bits.

Lemma pow2_pos (n : Z) : 0 <= n -> 0 < 2 ^ n.
Proof. intros; apply Z.pow_pos_nonneg; lia. Qed.

Lemma testbit_high (a n i : Z) :
  0 <= a < 2 ^ n -> 0 <= n <= i -> Z.testbit a i = false.
Proof.
  intros Ha Hi.
  rewrite <- (Z.mod_small a (2 ^ n)) by assumption.
  apply Z.mod_pow2_bits_high; lia.
Qed.

Lemma lor_below_pow2 (a b n : Z) :
  0 <= n -> 0 <= a < 2 ^ n -> 0 <= b < 2 ^ n -> 0 <= Z.lor a b < 2 ^ n.
Proof.
  intros Hn Ha Hb.
  assert (E : Z.lor a b = Z.lor a b mod 2 ^ n).
  { rewrite <- Z.land_ones, Z.land_lor_distr_l, !Z.land_ones by assumption.
    now rewrite !Z.mod_small by assumption. }
  rewrite E. apply Z.mod_pos_bound, pow2_pos, Hn.
Qed.

Lemma land_shifted_low (t low n : Z) :
  0 <= n -> 0 <= low < 2 ^ n -> Z.land (t * 2 ^ n) low = 0.
Proof.
  intros Hn Hlow. apply Z.bits_inj'; intros i Hi.
  rewrite Z.land_spec, Z.bits_0.
  destruct (Z.lt_ge_cases i n) as [Hlt | Hge].
  - now rewrite Z.mul_pow2_bits_low.
  - rewrite (testbit_high low n i) by lia. apply andb_false_r.
Qed.

Lemma lor_shifted_low (t low n : Z) :
  0 <= n -> 0 <= low < 2 ^ n -> Z.lor (t * 2 ^ n) low = t * 2 ^ n + low.
Proof.
  intros Hn Hlow.
  pose proof (Z.add_lor_land (t * 2 ^ n) low) as E.
  rewrite land_shifted_low in E by assumption. lia.
Qed.

Lemma shl64_small (x n k : Z) :
  0 <= n -> 0 <= k -> n + k <= 64 -> 0 <= x < 2 ^ k ->
  shl64 x n = x * 2 ^ n /\ 0 <= x * 2 ^ n < 2 ^ (n + k).
Proof.
  intros Hn Hk Hnk Hx. unfold shl64, wrap64.
  rewrite Z.shiftl_mul_pow2 by assumption.
  pose proof (pow2_pos n Hn) as Hp.
  assert (Hb : 0 <= x * 2 ^ n < 2 ^ (n + k)).
  { rewrite Z.pow_add_r by assumption. nia. }
  split; [| exact Hb].
  apply Z.mod_small.
  assert (2 ^ (n + k) <= 2 ^ 64) by (apply Z.pow_le_mono_r; lia). lia.
Qed.

End Bits.

(** ** [SnowFlake]: what a call does to the object *)

Lemma millis_range (ts : timespec) : 0 <= millis ts < 2 ^ 64.
Proof. unfold millis, wrap64. apply Z.mod_pos_bound. lia. Qed.

Lemma SnowFlake_new_layout (tb gb mb : Z) (sf : SnowFlake) :
  1 <= tb <= TOTAL_BITS -> 0 <= gb -> 0 <= mb -> 1 <= gb + mb ->
  SnowFlake_new tb gb mb = Some sf ->
  layout_ok sf /\ state_ok sf /\
  timestamp_bits sf = tb /\ group_bits sf = gb /\ machine_bits sf = mb.
Proof.
  intros Htb Hgb Hmb Hgm. unfold SnowFlake_new, shl_int_one.
  destruct (0 <=? gb) eqn:G0; [| discriminate].
  destruct (gb <=? 30) eqn:G1; [| discriminate].
  destruct (0 <=? mb) eqn:M0; [| discriminate].
  destruct (mb <=? 30) eqn:M1; [| discriminate].
  set (sb := wrap64 (TOTAL_BITS - tb - gb - mb)).
  destruct (0 <=? sb) eqn:S0; [| discriminate].
  destruct (sb <=? 30) eqn:S1; [| discriminate].
  cbn [andb]. intros [= <-].
  apply Z.leb_le in G0, G1, M0, M1, S0, S1.
  assert (Hsb : sb = TOTAL_BITS - tb - gb - mb).
  { unfold sb, wrap64 in *. unfold TOTAL_BITS in *.
    destruct (Z_lt_le_dec (64 - tb - gb - mb) 0) as [Hneg | Hpos].
    - exfalso.
      assert (E : (64 - tb - gb - mb) mod 2 ^ 64
                  = 64 - tb - gb - mb + 2 ^ 64).
      { symmetry. apply Z.mod_unique with (q := -1); lia. }
      rewrite E in S1. lia.
    - apply Z.mod_small. lia. }
  unfold layout_ok, state_ok, wrap64, TOTAL_BITS in *; cbn.
  rewrite !Z.shiftl_mul_pow2, !Z.mul_1_l by lia.
  rewrite !Z.mod_small by lia.
  repeat split; lia.
Qed.

Lemma get_uid_same_layout (sf : SnowFlake) (ts : timespec) (g m : Z) :
  same_layout sf (fst (get_uid sf ts g m)).
Proof.
  unfold get_uid, emit_uid.
  repeat match goal with
         | |- context [if ?b then _ else _] => destruct b
         end; cbn; repeat split.
Qed.

Lemma same_layout_ok (sf sf' : SnowFlake) :
  same_layout sf sf' -> layout_ok sf -> layout_ok sf'.
Proof.
  unfold same_layout, layout_ok.
  intros (-> & -> & -> & -> & -> & -> & -> & -> & -> & ->). exact (fun H => H).
Qed.

Lemma get_uid_state_ok (sf : SnowFlake) (ts : timespec) (g m : Z) :
  state_ok sf -> state_ok (fst (get_uid sf ts g m)).
Proof.
  pose proof (millis_range ts) as Ht.
  assert (Hw : forall x, 0 <= wrap64 x < 2 ^ 64)
    by (intros; apply Z.mod_pos_bound; lia).
  unfold state_ok, get_uid, emit_uid. intros [Hl Hs].
  repeat match goal with
         | |- context [if ?b then _ else _] => destruct b
         end; cbn; auto; split; auto; lia.
Qed.

(** The shape of a successful call: the clock has not gone back, the
    identifier packs the clock value, the two arguments and a sequence
    number that is at most [sequence_max], and the object records the clock
    value and the next sequence number. *)
Lemma get_uid_success (sf sf' : SnowFlake) (ts : timespec) (g m uid : Z) :
  0 <= sequence_max sf ->
  get_uid sf ts g m = (sf', Some uid) ->
  exists seq_id,
    0 <= seq_id <= sequence_max sf /\
    uid = pack_uid sf (millis ts) g m seq_id /\
    g <= machine_id_max sf /\ m <= machine_id_max sf /\
    last_timestamp sf <= millis ts /\
    (millis ts = last_timestamp sf -> seq_id = wrap64 (sequence sf + 1)) /\
    (last_timestamp sf < millis ts -> seq_id = 0) /\
    last_timestamp sf' = millis ts /\
    sequence sf' = wrap64 (seq_id + 1).
Proof.
  intros Hmax. unfold get_uid, emit_uid.
  destruct (g >? machine_id_max sf) eqn:Hg; [discriminate |].
  destruct (m >? machine_id_max sf) eqn:Hm; [discriminate |].
  cbn [orb].
  destruct (millis ts <? last_timestamp sf) eqn:Hlt; [discriminate |].
  apply Z.ltb_ge in Hlt.
  assert (Hg' : g <= machine_id_max sf) by lia.
  assert (Hm' : m <= machine_id_max sf) by lia.
  destruct (millis ts =? last_timestamp sf) eqn:Heq.
  - apply Z.eqb_eq in Heq. cbn.
    destruct (wrap64 (sequence sf + 1) >? sequence_max sf) eqn:Hs;
      [discriminate |].
    intros [= <- <-]. exists (wrap64 (sequence sf + 1)).
    assert (0 <= wrap64 (sequence sf + 1))
      by (apply Z.mod_pos_bound; lia).
    cbn. repeat split; try lia; reflexivity.
  - apply Z.eqb_neq in Heq. cbn.
    intros [= <- <-]. exists 0.
    cbn. repeat split; try lia; reflexivity.
Qed.

(** An identifier is the clock value in the bits from [timestamp_shift]
    up, over a remainder that stays below [2 ^ timestamp_shift]: the group
    and machine ids fit their fields, and the sequence number, which may
    reach [sequence_max] itself, needs one bit more than its field, which
    the group and machine fields provide. *)
Lemma pack_uid_split (sf : SnowFlake) (t g m s : Z) :
  layout_ok sf ->
  0 <= t < 2 ^ timestamp_bits sf ->
  0 <= g < group_id_max sf ->
  0 <= m < machine_id_max sf ->
  0 <= s <= sequence_max sf ->
  exists low,
    pack_uid sf t g m s = t * 2 ^ timestamp_shift sf + low /\
    0 <= low < 2 ^ timestamp_shift sf.
Proof.
  intros (Htb & Hgb & Hmb & Hsb & Hgm & Hsum & Eg & Em & Es & Ems & Egs & Ets)
         Ht Hg Hm Hs.
  unfold TOTAL_BITS in Hsum. unfold pack_uid.
  rewrite Eg in Hg. rewrite Em in Hm. rewrite Es in Hs.
  destruct (shl64_small t (timestamp_shift sf) (timestamp_bits sf))
    as [-> _]; try lia.
  destruct (shl64_small g (group_shift sf) (group_bits sf))
    as [-> Bg]; try lia.
  destruct (shl64_small m (machine_shift sf) (machine_bits sf))
    as [-> Bm]; try lia.
  set (n := timestamp_shift sf) in *.
  assert (Hn : 0 <= n) by lia.
  assert (Bg' : 0 <= g * 2 ^ group_shift sf < 2 ^ n).
  { replace n with (group_shift sf + group_bits sf) by lia. exact Bg. }
  assert (Bm' : 0 <= m * 2 ^ machine_shift sf < 2 ^ n).
  { assert (2 ^ (machine_shift sf + machine_bits sf) <= 2 ^ n)
      by (apply Z.pow_le_mono_r; lia). lia. }
  assert (Bs : 0 <= s < 2 ^ n).
  { assert (2 ^ sequence_bits sf < 2 ^ n)
      by (apply Z.pow_lt_mono_r; lia). lia. }
  rewrite <- !Z.lor_assoc.
  set (low := Z.lor (g * 2 ^ group_shift sf)
                    (Z.lor (m * 2 ^ machine_shift sf) s)).
  assert (Blow : 0 <= low < 2 ^ n).
  { unfold low. repeat apply lor_below_pow2; assumption. }
  exists low. split; [| exact Blow].
  apply lor_shifted_low; assumption.
Qed.

(** ** C1: identifiers of successive calls *)

(** C1, as amended. On a generator with a well-formed layout, for group
    and machine ids below the maxima of their own fields, when the clock
    value of the second of two successive successful [get_uid] calls is
    strictly greater than that of the first and still fits the timestamp
    field (it is below [2 ^ timestamp_bits]), the first identifier is
    strictly smaller than the second, both being 64-bit unsigned values. *)
Theorem get_uid_strictly_increasing
  (sf sf1 sf2 : SnowFlake) (ts1 ts2 : timespec) (g1 m1 g2 m2 A B : Z) :
  layout_ok sf ->
  0 <= g1 < group_id_max sf -> 0 <= m1 < machine_id_max sf ->
  0 <= g2 < group_id_max sf -> 0 <= m2 < machine_id_max sf ->
  millis ts1 < millis ts2 < 2 ^ timestamp_bits sf ->
  get_uid sf ts1 g1 m1 = (sf1, Some A) ->
  get_uid sf1 ts2 g2 m2 = (sf2, Some B) ->
  0 <= A < B /\ B < 2 ^ 64.
Proof.
  intros L Hg1 Hm1 Hg2 Hm2 Ht C1 C2.
  pose proof (get_uid_same_layout sf ts1 g1 m1) as SL.
  rewrite C1 in SL; cbn [fst] in SL.
  pose proof (same_layout_ok _ _ SL L) as L1.
  destruct SL as (Etb & _ & _ & _ & Egm & Emm & Esm & Ets & _ & _).
  assert (Hmax : 0 <= sequence_max sf).
  { destruct L as (_ & _ & _ & Hsb & _ & _ & _ & _ & -> & _).
    apply Z.lt_le_incl, pow2_pos; lia. }
  pose proof (millis_range ts1) as R1.
  apply get_uid_success in C1; [| exact Hmax].
  apply get_uid_success in C2; [| rewrite Esm; exact Hmax].
  destruct C1 as (s1 & Hs1 & -> & _).
  destruct C2 as (s2 & Hs2 & -> & _).
  destruct (pack_uid_split sf (millis ts1) g1 m1 s1)
    as (low1 & -> & Hl1); try assumption; try lia.
  destruct (pack_uid_split sf1 (millis ts2) g2 m2 s2)
    as (low2 & -> & Hl2);
    rewrite ?Etb, ?Egm, ?Emm, ?Esm; try assumption; try lia.
  rewrite Ets in *.
  assert (Hts : 0 <= timestamp_shift sf /\ 0 <= timestamp_bits sf /\
                timestamp_bits sf + timestamp_shift sf = 64).
  { destruct L as (? & ? & ? & ? & ? & ? & _ & _ & _ & ? & ? & ?).
    unfold TOTAL_BITS in *. lia. }
  destruct Hts as (Hn & Hb & Hsum).
  pose proof (pow2_pos _ Hn) as Hp.
  assert (E64 : 2 ^ 64 = 2 ^ timestamp_bits sf * 2 ^ timestamp_shift sf).
  { rewrite <- Z.pow_add_r, Hsum by lia. reflexivity. }
  rewrite E64. nia.
Qed.

Lemma default_snowflake_layout : layout_ok default_snowflake.
Proof. unfold layout_ok, TOTAL_BITS; cbn. repeat split; lia. Qed.

Lemma get_uid_strictly_increasing_witness :
  0 <= 671088640 < 805306368 /\ 805306368 < 2 ^ 64.
Proof.
  apply (get_uid_strictly_increasing default_snowflake
           (mk_SnowFlake 5 1 37 5 10 12 32 1024 4096 27 22 12)
           (mk_SnowFlake 6 1 37 5 10 12 32 1024 4096 27 22 12)
           (mk_timespec 0 5000000) (mk_timespec 0 6000000) 0 0 0 0).
  - unfold layout_ok, TOTAL_BITS; cbn. repeat split; lia.
  - cbn; lia.
  - cbn; lia.
  - cbn; lia.
  - cbn; lia.
  - vm_compute. repeat split; reflexivity.
  - reflexivity.
  - reflexivity.
Defined.

(** C1 as stated fails once the clock passes the timestamp field. The
    default generator keeps 37 bits of the clock; [ts1] reads
    [2 ^ 37 - 1] milliseconds and [ts2] one millisecond more. Both calls
    succeed, and the second identifier is 0. *)
Lemma get_uid_wraps_past_timestamp_field :
  let ts1 := mk_timespec 137438953 471000000 in
  let ts2 := mk_timespec 137438953 472000000 in
  exists sf1 sf2 A B,
    0 <= 0 < group_id_max default_snowflake /\
    0 <= 0 < machine_id_max default_snowflake /\
    millis ts1 < millis ts2 /\
    get_uid default_snowflake ts1 0 0 = (sf1, Some A) /\
    get_uid sf1 ts2 0 0 = (sf2, Some B) /\
    ~ A < B.
Proof.
  cbv zeta.
  exists (mk_SnowFlake 137438953471 1 37 5 10 12 32 1024 4096 27 22 12),
         (mk_SnowFlake 137438953472 1 37 5 10 12 32 1024 4096 27 22 12),
         18446744073575333888, 0.
  repeat split; try reflexivity; vm_compute; discriminate.
Qed.

(** *** Whole runs

    The same order over a run of any length: the layout is an invariant of
    the object, and an identifier lies in the window of its clock value. *)

Lemma get_uids_layout_ok (calls : list (timespec * Z * Z)) :
  forall sf : SnowFlake,
    layout_ok sf -> state_ok sf ->
    layout_ok (fst (get_uids sf calls)) /\ state_ok (fst (get_uids sf calls))
    /\ same_layout sf (fst (get_uids sf calls)).
Proof.
  induction calls as [| [[ts g] m] rest IH]; intros sf L S.
  - cbn. split; [assumption | split; [assumption |]].
    unfold same_layout. repeat split.
  - cbn [get_uids].
    pose proof (get_uid_same_layout sf ts g m) as SL.
    pose proof (get_uid_state_ok sf ts g m S) as S1.
    destruct (get_uid sf ts g m) as [sf1 r]. cbn [fst] in *.
    destruct (IH sf1 (same_layout_ok _ _ SL L) S1) as (L2 & S2 & SL2).
    destruct (get_uids sf1 rest) as [sf2 rs]. cbn [fst] in *.
    split; [assumption | split; [assumption |]].
    unfold same_layout in *. intuition congruence.
Qed.

Lemma get_uid_window (sf sf' : SnowFlake) (ts : timespec) (g m uid : Z) :
  layout_ok sf ->
  fits_fields sf (ts, g, m) ->
  get_uid sf ts g m = (sf', Some uid) ->
  millis ts * 2 ^ timestamp_shift sf <= uid
  < (millis ts + 1) * 2 ^ timestamp_shift sf.
Proof.
  intros L (Hg & Hm & Ht) C. unfold clock_of in Ht. cbn in Hg, Hm, Ht.
  pose proof (millis_range ts) as R.
  assert (Hmax : 0 <= sequence_max sf).
  { destruct L as (_ & _ & _ & Hsb & _ & _ & _ & _ & -> & _).
    apply Z.lt_le_incl, pow2_pos; lia. }
  apply get_uid_success in C; [| exact Hmax].
  destruct C as (s & Hs & -> & _).
  destruct (pack_uid_split sf (millis ts) g m s)
    as (low & -> & Hl); try assumption; lia.
Qed.

Lemma fits_fields_same_layout (sf sf' : SnowFlake) (c : timespec * Z * Z) :
  same_layout sf sf' -> fits_fields sf c -> fits_fields sf' c.
Proof.
  unfold same_layout, fits_fields.
  intros (-> & _ & _ & _ & -> & -> & _). exact (fun H => H).
Qed.

Lemma get_uids_above (calls : list (timespec * Z * Z)) :
  forall (sf : SnowFlake) (t : Z),
    layout_ok sf ->
    Forall (fits_fields sf) calls ->
    Forall (fun c => t < clock_of c) calls ->
    Forall (fun uid => (t + 1) * 2 ^ timestamp_shift sf <= uid)
           (successes (snd (get_uids sf calls))).
Proof.
  induction calls as [| [[ts g] m] rest IH]; intros sf t L Hfit Hclk.
  - constructor.
  - inversion Hfit as [| c l Hc Hrest]; subst c l.
    inversion Hclk as [| c l Ht Hlater]; subst c l.
    unfold clock_of in Ht; cbn in Ht.
    cbn [get_uids].
    pose proof (get_uid_same_layout sf ts g m) as SL.
    destruct (get_uid sf ts g m) as [sf1 r] eqn:C. cbn [fst] in SL.
    assert (Ets : timestamp_shift sf1 = timestamp_shift sf)
      by (destruct SL as (_ & _ & _ & _ & _ & _ & _ & E & _); exact E).
    specialize (IH sf1 t (same_layout_ok _ _ SL L)).
    rewrite Ets in IH.
    assert (Hrest' : Forall (fits_fields sf1) rest).
    { eapply Forall_impl; [| exact Hrest].
      intros c. apply fits_fields_same_layout, SL. }
    specialize (IH Hrest' Hlater).
    destruct (get_uids sf1 rest) as [sf2 rs]. cbn [snd] in *.
    destruct r as [uid |]; cbn [successes flat_map app] in *; [| exact IH].
    constructor; [| exact IH].
    pose proof (get_uid_window sf sf1 ts g m uid L Hc C) as W.
    assert (0 < 2 ^ timestamp_shift sf).
    { apply pow2_pos.
      destruct L as (? & ? & ? & ? & ? & ? & _ & _ & _ & ? & ? & ?). lia. }
    nia.
Qed.

(** X5. In a run whose clock values grow strictly from call to call, with
    ids and clock values that fit their fields, the identifiers returned
    grow strictly, however many calls fail in between. *)
Lemma get_uids_increasing (calls : list (timespec * Z * Z)) :
  forall sf : SnowFlake,
    layout_ok sf ->
    Forall (fits_fields sf) calls ->
    StronglySorted Z.lt (map clock_of calls) ->
    StronglySorted Z.lt (successes (snd (get_uids sf calls))).
Proof.
  induction calls as [| [[ts g] m] rest IH]; intros sf L Hfit Hclk.
  - constructor.
  - inversion Hfit as [| c l Hc Hrest]; subst c l.
    cbn [map] in Hclk. apply StronglySorted_inv in Hclk.
    destruct Hclk as [Hsorted Hlater].
    rewrite Forall_map in Hlater.
    cbn [get_uids].
    pose proof (get_uid_same_layout sf ts g m) as SL.
    pose proof (get_uids_above rest) as A.
    destruct (get_uid sf ts g m) as [sf1 r] eqn:C. cbn [fst] in SL.
    assert (Ets : timestamp_shift sf1 = timestamp_shift sf)
      by (destruct SL as (_ & _ & _ & _ & _ & _ & _ & E & _); exact E).
    assert (Hrest' : Forall (fits_fields sf1) rest).
    { eapply Forall_impl; [| exact Hrest].
      intros c. apply fits_fields_same_layout, SL. }
    specialize (IH sf1 (same_layout_ok _ _ SL L) Hrest' Hsorted).
    specialize (A sf1 (clock_of (ts, g, m)) (same_layout_ok _ _ SL L)
                  Hrest' Hlater).
    rewrite Ets in A.
    destruct (get_uids sf1 rest) as [sf2 rs]. cbn [snd] in *.
    destruct r as [uid |]; cbn [successes flat_map app] in *; [| exact IH].
    constructor; [exact IH |].
    pose proof (get_uid_window sf sf1 ts g m uid L Hc C) as W.
    eapply Forall_impl; [| exact A].
    unfold clock_of; cbn. intros u Hu. lia.
Qed.

(** ** C4: what a failing call leaves behind *)

(** C4, as amended. A failing [get_uid] call leaves [last_timestamp]
    unchanged. It fails for one of three reasons: when an id is above the
    bound of the id check or the clock is behind [last_timestamp],
    [sequence] is unchanged too; when the clock equals [last_timestamp] and
    the incremented [sequence] exceeds [sequence_max], the increment stays:
    [sequence] is one more (as a [uint64_t]) than before the call. *)
Theorem get_uid_failure_state
  (sf sf' : SnowFlake) (ts : timespec) (g m : Z) :
  get_uid sf ts g m = (sf', None) ->
  last_timestamp sf' = last_timestamp sf /\
  (((g > machine_id_max sf \/ m > machine_id_max sf
     \/ millis ts < last_timestamp sf)
    /\ sequence sf' = sequence sf)
   \/
   (g <= machine_id_max sf /\ m <= machine_id_max sf
    /\ millis ts = last_timestamp sf
    /\ sequence sf' = wrap64 (sequence sf + 1)
    /\ sequence_max sf < sequence sf')).
Proof.
  unfold get_uid, emit_uid.
  destruct (g >? machine_id_max sf) eqn:Hg.
  { intros [= <-]. split; [reflexivity |]. left. split; [lia | reflexivity]. }
  destruct (m >? machine_id_max sf) eqn:Hm.
  { intros [= <-]. split; [reflexivity |]. left. split; [lia | reflexivity]. }
  cbn [orb].
  destruct (millis ts <? last_timestamp sf) eqn:Hlt.
  { intros [= <-]. split; [reflexivity |]. left. split; [lia | reflexivity]. }
  destruct (millis ts =? last_timestamp sf) eqn:Heq; [| discriminate].
  cbn.
  destruct (wrap64 (sequence sf + 1) >? sequence_max sf) eqn:Hs;
    [| discriminate].
  intros [= <-]. cbn. split; [reflexivity |]. right.
  repeat split; try lia; reflexivity.
Qed.

Lemma get_uid_failure_state_witness :
  last_timestamp default_snowflake = last_timestamp default_snowflake /\
  (((0 > machine_id_max default_snowflake
     \/ 0 > machine_id_max default_snowflake
     \/ millis (mk_timespec 0 0) < last_timestamp default_snowflake)
    /\ sequence default_snowflake = sequence default_snowflake)
   \/
   (0 <= machine_id_max default_snowflake
    /\ 0 <= machine_id_max default_snowflake
    /\ millis (mk_timespec 0 0) = last_timestamp default_snowflake
    /\ sequence default_snowflake = wrap64 (sequence default_snowflake + 1)
    /\ sequence_max default_snowflake < sequence default_snowflake)).
Proof.
  apply (get_uid_failure_state default_snowflake default_snowflake
           (mk_timespec 0 0) 0 0).
  reflexivity.
Defined.

(** C4 as stated fails on sequence exhaustion. On the default generator,
    2049 calls within millisecond 5 succeed and leave [sequence] at 4097;
    the next call in that millisecond fails and leaves it at 4098. *)
Lemma get_uid_exhaustion_moves_sequence :
  let ts := mk_timespec 0 5000000 in
  let sf := fst (get_uids default_snowflake (repeat (ts, 0, 0) 2049%nat)) in
  exists sf',
    get_uid sf ts 0 0 = (sf', None) /\
    sequence sf = 4097 /\ sequence sf' = 4098 /\
    sequence sf' <> sequence sf.
Proof.
  cbv zeta.
  exists (mk_SnowFlake 5 4098 37 5 10 12 32 1024 4096 27 22 12).
  split; [| split; [| split]].
  - vm_compute. reflexivity.
  - vm_compute. reflexivity.
  - reflexivity.
  - vm_compute. discriminate.
Qed.

(** ** C7: the id check *)

(** The check as the code does it: both ids are compared with
    [machine_id_max], and an id equal to it passes. *)
Lemma get_uid_id_check (sf : SnowFlake) (ts : timespec) (g m : Z) :
  (machine_id_max sf < g \/ machine_id_max sf < m) ->
  get_uid sf ts g m = (sf, None).
Proof.
  intros H. unfold get_uid.
  destruct (g >? machine_id_max sf) eqn:Hg; [reflexivity |].
  destruct (m >? machine_id_max sf) eqn:Hm; [reflexivity |].
  lia.
Qed.

(** With the clock ahead of [last_timestamp] nothing but the id check can
    fail, so the call fails exactly when an id exceeds [machine_id_max]. *)
Lemma get_uid_rejects_iff (sf : SnowFlake) (ts : timespec) (g m : Z) :
  last_timestamp sf < millis ts ->
  snd (get_uid sf ts g m) = None
  <-> (machine_id_max sf < g \/ machine_id_max sf < m).
Proof.
  intros Hclk. split.
  - unfold get_uid, emit_uid.
    destruct (g >? machine_id_max sf) eqn:Hg; [lia |].
    destruct (m >? machine_id_max sf) eqn:Hm; [lia |].
    cbn [orb].
    destruct (millis ts <? last_timestamp sf) eqn:Hlt; [lia |].
    destruct (millis ts =? last_timestamp sf) eqn:Heq; [lia |].
    cbn. discriminate.
  - intros H. now rewrite get_uid_id_check.
Qed.

(** A layout with more group bits than machine bits shows the other side
    of the check: [SnowFlake(37, 10, 5)] has [group_id_max = 1024] and
    [machine_id_max = 32], and rejects group id 100. *)
Lemma get_uid_rejects_group_id_in_range :
  exists sf,
    SnowFlake_new 37 10 5 = Some sf /\
    layout_ok sf /\
    0 <= 100 < group_id_max sf /\
    get_uid sf (mk_timespec 0 5000000) 100 0 = (sf, None).
Proof.
  exists (mk_SnowFlake 1 0 37 10 5 12 1024 32 4096 27 17 12).
  split; [reflexivity |]. split.
  - unfold layout_ok, TOTAL_BITS; cbn. repeat split; lia.
  - split; [cbn; lia | reflexivity].
Qed.

(** C7, at its failing inputs. The default generator has
    [group_id_max = 32] and [machine_id_max = 1024]. With the clock at
    millisecond 5 it accepts group id 32 and returns the identifier that
    group id 0 gets in the same millisecond, it accepts group id 1024, and
    it accepts machine id 1024, whose identifier is the one of machine id 0
    in group 1. *)
Lemma get_uid_accepts_ids_at_the_maximum :
  let ts := mk_timespec 0 5000000 in
  group_id_max default_snowflake = 32 /\
  machine_id_max default_snowflake = 1024 /\
  snd (get_uid default_snowflake ts 32 0) = Some 671088640 /\
  snd (get_uid default_snowflake ts 0 0) = Some 671088640 /\
  snd (get_uid default_snowflake ts 1024 0) = Some 4966055936 /\
  snd (get_uid default_snowflake ts 0 1024) = Some 675282944 /\
  snd (get_uid default_snowflake ts 1 0) = Some 675282944.
Proof. cbv zeta. repeat split; vm_compute; reflexivity. Qed.

(** ** C2: reading the fields back *)

(** While the sequence number is below [sequence_max], the four fields
    occupy disjoint bits and the identifier is their positional sum. *)
Lemma pack_uid_sum (sf : SnowFlake) (t g m s : Z) :
  layout_ok sf ->
  0 <= t < 2 ^ timestamp_bits sf ->
  0 <= g < group_id_max sf ->
  0 <= m < machine_id_max sf ->
  0 <= s < sequence_max sf ->
  pack_uid sf t g m s
  = ((t * 2 ^ group_bits sf + g) * 2 ^ machine_bits sf + m)
      * 2 ^ sequence_bits sf + s.
Proof.
  intros (Htb & Hgb & Hmb & Hsb & Hgm & Hsum & Eg & Em & Es & Ems & Egs & Ets)
         Ht Hg Hm Hs.
  unfold TOTAL_BITS in Hsum. unfold pack_uid.
  rewrite Eg in Hg. rewrite Em in Hm. rewrite Es in Hs.
  destruct (shl64_small t (timestamp_shift sf) (timestamp_bits sf))
    as [-> _]; try lia.
  destruct (shl64_small g (group_shift sf) (group_bits sf))
    as [-> Bg]; try lia.
  destruct (shl64_small m (machine_shift sf) (machine_bits sf))
    as [-> Bm]; try lia.
  set (ts := timestamp_shift sf) in *.
  set (gs := group_shift sf) in *.
  set (ms := machine_shift sf) in *.
  assert (E1 : 2 ^ ts = 2 ^ group_bits sf * 2 ^ gs)
    by (rewrite <- Z.pow_add_r by lia; f_equal; lia).
  assert (E2 : 2 ^ gs = 2 ^ machine_bits sf * 2 ^ ms)
    by (rewrite <- Z.pow_add_r by lia; f_equal; lia).
  replace (gs + group_bits sf) with ts in Bg by lia.
  replace (ms + machine_bits sf) with gs in Bm by lia.
  rewrite (lor_shifted_low t _ ts) by (assumption || lia).
  replace (t * 2 ^ ts + g * 2 ^ gs)
    with ((t * 2 ^ group_bits sf + g) * 2 ^ gs) by (rewrite E1; ring).
  rewrite (lor_shifted_low _ _ gs) by (assumption || lia).
  replace ((t * 2 ^ group_bits sf + g) * 2 ^ gs + m * 2 ^ ms)
    with (((t * 2 ^ group_bits sf + g) * 2 ^ machine_bits sf + m) * 2 ^ ms)
    by (rewrite E2; ring).
  rewrite (lor_shifted_low _ s ms) by (rewrite ?Ems; lia).
  rewrite Ems. reflexivity.
Qed.

Lemma land_mask (a n : Z) : 0 <= n -> Z.land a (2 ^ n - 1) = a mod 2 ^ n.
Proof.
  intros Hn. rewrite <- Z.land_ones by assumption.
  now rewrite Z.ones_equiv, <- Z.sub_1_r.
Qed.

Lemma div_mod_digit (hi lo b : Z) :
  0 < b -> 0 <= lo < b -> (hi * b + lo) / b = hi /\ (hi * b + lo) mod b = lo.
Proof.
  intros Hb Hlo. split.
  - symmetry. apply Z.div_unique with (r := lo); [lia | ring].
  - symmetry. apply Z.mod_unique with (q := hi); [lia | ring].
Qed.

(** C2, as amended. On a generator with a well-formed layout, for group
    and machine ids below the maxima of their own fields, a successful
    [get_uid] call whose clock value fits the timestamp field and whose
    sequence number is not [sequence_max] returns an identifier from which
    the shift constants give back the clock value, the group id and the
    machine id, and a sequence value in [[0, sequence_max)] that is the
    number the call took from the counter. *)
Theorem get_uid_decode
  (sf sf' : SnowFlake) (ts : timespec) (g m uid : Z) :
  layout_ok sf ->
  0 <= g < group_id_max sf -> 0 <= m < machine_id_max sf ->
  millis ts < 2 ^ timestamp_bits sf ->
  (millis ts = last_timestamp sf ->
   wrap64 (sequence sf + 1) <> sequence_max sf) ->
  get_uid sf ts g m = (sf', Some uid) ->
  decode_timestamp sf uid = millis ts /\
  decode_group sf uid = g /\
  decode_machine sf uid = m /\
  0 <= decode_sequence sf uid < sequence_max sf /\
  sequence sf' = wrap64 (decode_sequence sf uid + 1).
Proof.
  intros L Hg Hm Ht Hseq C.
  pose proof (millis_range ts) as R.
  assert (Hmax : 0 <= sequence_max sf).
  { destruct L as (_ & _ & _ & Hsb & _ & _ & _ & _ & -> & _).
    apply Z.lt_le_incl, pow2_pos; lia. }
  apply get_uid_success in C; [| exact Hmax].
  destruct C as (s & Hs & -> & _ & _ & Hle & Hsame & Hnew & _ & Hnext).
  assert (Hs' : 0 <= s < sequence_max sf).
  { destruct (Z.eq_dec (millis ts) (last_timestamp sf)) as [E | E].
    - specialize (Hseq E). rewrite <- (Hsame E) in Hseq. lia.
    - rewrite Hnew by lia.
      destruct L as (_ & _ & _ & Hsb & _ & _ & _ & _ & -> & _).
      split; [lia | apply pow2_pos; lia]. }
  rewrite pack_uid_sum by (try assumption; lia).
  destruct L as
    (Htb & Hgb & Hmb & Hsb & Hgm & Hsum & Eg & Em & Es & Ems & Egs & Ets).
  unfold decode_timestamp, decode_group, decode_machine, decode_sequence.
  rewrite Eg, Em, Es, Ets, Egs, Ems in *.
  set (sb := sequence_bits sf) in *.
  set (mb := machine_bits sf) in *.
  set (gb := group_bits sf) in *.
  set (t := millis ts) in *.
  pose proof (pow2_pos sb ltac:(lia)) as Ps.
  pose proof (pow2_pos mb ltac:(lia)) as Pm.
  pose proof (pow2_pos gb ltac:(lia)) as Pg.
  rewrite !land_mask, !Z.shiftr_div_pow2 by lia.
  set (x := ((t * 2 ^ gb + g) * 2 ^ mb + m) * 2 ^ sb + s).
  destruct (div_mod_digit ((t * 2 ^ gb + g) * 2 ^ mb + m) s (2 ^ sb))
    as [D1 M1]; try lia.
  destruct (div_mod_digit (t * 2 ^ gb + g) m (2 ^ mb)) as [D2 M2]; try lia.
  destruct (div_mod_digit t g (2 ^ gb)) as [D3 M3]; try lia.
  fold x in D1, M1.
  assert (X1 : x / 2 ^ (sb + mb) = t * 2 ^ gb + g).
  { rewrite Z.pow_add_r, <- Z.div_div, D1, D2 by lia. reflexivity. }
  assert (X2 : x / 2 ^ (sb + mb + gb) = t).
  { rewrite (Z.pow_add_r _ (sb + mb)), <- Z.div_div, X1, D3 by lia.
    reflexivity. }
  rewrite X2, X1, D1, M1, M2, M3.
  repeat split; first [exact Hnext | lia].
Qed.

Lemma get_uid_decode_witness :
  let sf := default_snowflake in
  let uid := 683696128 in
  decode_timestamp sf uid = millis (mk_timespec 0 5000000) /\
  decode_group sf uid = 3 /\
  decode_machine sf uid = 6 /\
  0 <= decode_sequence sf uid < sequence_max sf /\
  sequence (mk_SnowFlake 5 1 37 5 10 12 32 1024 4096 27 22 12)
  = wrap64 (decode_sequence sf uid + 1).
Proof.
  apply (get_uid_decode default_snowflake
           (mk_SnowFlake 5 1 37 5 10 12 32 1024 4096 27 22 12)
           (mk_timespec 0 5000000) 3 6 683696128).
  - unfold layout_ok, TOTAL_BITS; cbn. repeat split; lia.
  - cbn; lia.
  - cbn; lia.
  - vm_compute. reflexivity.
  - vm_compute. discriminate.
  - reflexivity.
Defined.

(** C2 as stated fails once the clock passes the timestamp field: with
    the clock at [2 ^ 37] milliseconds the default generator returns the
    identifier 0, whose timestamp field reads 0. *)
Lemma get_uid_drops_high_clock_bits :
  let ts := mk_timespec 137438953 472000000 in
  exists sf' uid,
    0 <= 0 < group_id_max default_snowflake /\
    0 <= 0 < machine_id_max default_snowflake /\
    get_uid default_snowflake ts 0 0 = (sf', Some uid) /\
    millis ts = 2 ^ 37 /\
    decode_timestamp default_snowflake uid <> millis ts.
Proof.
  cbv zeta.
  exists (mk_SnowFlake 137438953472 1 37 5 10 12 32 1024 4096 27 22 12), 0.
  repeat split; try reflexivity; vm_compute; discriminate.
Qed.

(** The sequence number can be [sequence_max] itself, one more than the
    sequence field holds: the exhaustion test is [>]. On the default
    generator the counter advances by two per call within a millisecond,
    and the 2049th call of millisecond 5 takes the number 4096. Its
    identifier for group 3, machine 6 reads back as machine 7 with sequence
    0, and is the identifier that machine 7 got as the first of that
    millisecond. *)
Lemma get_uid_sequence_reaches_sequence_max :
  let ts := mk_timespec 0 5000000 in
  let sf := fst (get_uids default_snowflake (repeat (ts, 3, 6) 2048%nat)) in
  exists sf' uid,
    get_uid sf ts 3 6 = (sf', Some uid) /\
    sequence sf' = sequence_max sf + 1 /\
    decode_machine sf uid = 7 /\
    decode_sequence sf uid = 0 /\
    snd (get_uid default_snowflake ts 3 7) = Some uid.
Proof.
  cbv zeta.
  exists (mk_SnowFlake 5 4097 37 5 10 12 32 1024 4096 27 22 12), 683700224.
  split; [| split; [| split; [| split]]]; vm_compute; reflexivity.
Qed.

(** ** The span sampler: one call of [filter] *)

Section Sampler.
Context {K : RpcBasic}.

(** The three branches of [filter], each under the condition that selects
    it. *)
Lemma filter_counted (lg : RPCSpanLoggerDefault) (ts : timespec)
  (span : RPCSpan) :
  (millis ts = span_timestamp lg /\ span_count lg < span_limit lg)
  \/ trace_id span <> UINT64_UNSET ->
  filter lg ts span
  = (mk_logger (span_limit lg) (span_timestamp lg)
       (wrap32 (span_count lg + 1)), true).
Proof.
  intros H. unfold filter.
  destruct H as [[Ht Hc] | Hid].
  - apply Z.eqb_eq in Ht. apply Z.ltb_lt in Hc. now rewrite Ht, Hc.
  - apply Z.eqb_neq in Hid. rewrite Hid. cbn [negb]. now rewrite orb_true_r.
Qed.

Lemma filter_uncounted (lg : RPCSpanLoggerDefault) (ts : timespec)
  (span : RPCSpan) :
  trace_id span = UINT64_UNSET ->
  ~ (millis ts = span_timestamp lg /\ span_count lg < span_limit lg) ->
  filter lg ts span
  = if millis ts >? span_timestamp lg
    then (mk_logger (span_limit lg) (millis ts) 0, true)
    else (lg, false).
Proof.
  intros Hid Hn. unfold filter.
  apply Z.eqb_eq in Hid. rewrite Hid. cbn [negb]. rewrite orb_false_r.
  destruct (millis ts =? span_timestamp lg) eqn:Ht;
    destruct (span_count lg <? span_limit lg) eqn:Hc; cbn [andb];
    try reflexivity.
  exfalso. apply Hn. split; [now apply Z.eqb_eq | now apply Z.ltb_lt].
Qed.

(** C3, as amended. When [filter] is called with a span whose trace id is
    the unset sentinel and the current millisecond is strictly greater than
    the tracked [span_timestamp], it resets [span_count] to zero, sets
    [span_timestamp] to the current millisecond and accepts that span
    (returns [true]), without counting it. *)
Theorem filter_rollover_accepts (lg : RPCSpanLoggerDefault) (ts : timespec)
  (span : RPCSpan) :
  trace_id span = UINT64_UNSET ->
  span_timestamp lg < millis ts ->
  filter lg ts span = (mk_logger (span_limit lg) (millis ts) 0, true).
Proof.
  intros Hid Hlt. rewrite filter_uncounted by (assumption || lia).
  destruct (millis ts >? span_timestamp lg) eqn:Hgt; [reflexivity | lia].
Qed.

(** C6. A span whose trace id is not the unset sentinel is accepted,
    whatever [span_count], [span_limit], the tracked millisecond and the
    clock are. *)
Theorem filter_accepts_traced (lg : RPCSpanLoggerDefault) (ts : timespec)
  (span : RPCSpan) :
  trace_id span <> UINT64_UNSET ->
  snd (filter lg ts span) = true.
Proof.
  intros Hid. rewrite filter_counted by (right; exact Hid). reflexivity.
Qed.

(** C10. A span accepted for its trace id is counted: [span_count] goes up
    by one, as an [unsigned int], [span_timestamp] and [span_limit] stay,
    whatever the clock and the count are. The count it leaves is the one an
    unforced span of the tracked millisecond is then measured against: such
    a span is rejected as soon as that count has reached [span_limit]. *)
Theorem filter_traced_is_counted (lg : RPCSpanLoggerDefault) (ts : timespec)
  (span : RPCSpan) :
  trace_id span <> UINT64_UNSET ->
  let lg' := fst (filter lg ts span) in
  snd (filter lg ts span) = true /\
  span_count lg' = wrap32 (span_count lg + 1) /\
  (0 <= span_count lg < 2 ^ 32 - 1 -> span_count lg' = span_count lg + 1) /\
  span_timestamp lg' = span_timestamp lg /\
  span_limit lg' = span_limit lg /\
  (forall (ts2 : timespec) (span2 : RPCSpan),
      trace_id span2 = UINT64_UNSET ->
      millis ts2 = span_timestamp lg ->
      span_limit lg <= span_count lg' ->
      filter lg' ts2 span2 = (lg', false)).
Proof.
  intros Hid. rewrite filter_counted by (right; exact Hid). cbn.
  repeat split.
  - intros Hc. unfold wrap32. apply Z.mod_small. lia.
  - intros ts2 span2 Hid2 Ht2 Hfull.
    rewrite filter_uncounted; cbn; [| assumption | lia].
    destruct (millis ts2 >? span_timestamp lg) eqn:Hgt; [lia | reflexivity].
Qed.

End Sampler.

Lemma filter_rollover_accepts_witness :
  @filter srpc_basic (mk_logger 1 0 0) (mk_timespec 0 5000000)
    (@RPCSpan_new srpc_basic 0 0)
  = (mk_logger 1 5 0, true).
Proof.
  apply (@filter_rollover_accepts srpc_basic (mk_logger 1 0 0)
           (mk_timespec 0 5000000) (@RPCSpan_new srpc_basic 0 0)).
  - reflexivity.
  - vm_compute. reflexivity.
Defined.

(** C3 as stated fails: the span that moves the sampler to a new
    millisecond is accepted. A fresh sampler, the clock at millisecond 5,
    a span with the unset trace id. *)
Lemma filter_rollover_not_rejected :
  let lg := @RPCSpanLoggerDefault_new srpc_basic in
  let ts := mk_timespec 0 5000000 in
  let span := @RPCSpan_new srpc_basic 0 0 in
  trace_id span = @UINT64_UNSET srpc_basic /\
  span_timestamp lg < millis ts /\
  snd (@filter srpc_basic lg ts span) <> false.
Proof. cbv zeta. repeat split; vm_compute; discriminate. Qed.

Lemma filter_accepts_traced_witness :
  snd (@filter srpc_basic (mk_logger 1 7 1) (mk_timespec 0 9000000)
         (set_trace_id (@RPCSpan_new srpc_basic 0 0) 42)) = true.
Proof.
  apply (@filter_accepts_traced srpc_basic).
  vm_compute. discriminate.
Defined.

Lemma filter_traced_is_counted_witness :
  let lg := mk_logger 1 7 1 in
  let ts := mk_timespec 0 9000000 in
  let span := set_trace_id (@RPCSpan_new srpc_basic 0 0) 42 in
  let lg' := fst (@filter srpc_basic lg ts span) in
  snd (@filter srpc_basic lg ts span) = true /\
  span_count lg' = wrap32 (span_count lg + 1) /\
  (0 <= span_count lg < 2 ^ 32 - 1 -> span_count lg' = span_count lg + 1) /\
  span_timestamp lg' = span_timestamp lg /\
  span_limit lg' = span_limit lg /\
  (forall (ts2 : timespec) (span2 : RPCSpan),
      trace_id span2 = @UINT64_UNSET srpc_basic ->
      millis ts2 = span_timestamp lg ->
      span_limit lg <= span_count lg' ->
      @filter srpc_basic lg' ts2 span2 = (lg', false)).
Proof.
  apply (@filter_traced_is_counted srpc_basic (mk_logger 1 7 1)
           (mk_timespec 0 9000000)
           (set_trace_id (@RPCSpan_new srpc_basic 0 0) 42)).
  vm_compute. discriminate.
Defined.

(** ** The span sampler: a burst within one millisecond *)

Section Budget.
Context {K : RpcBasic}.

(** Once the count has reached the limit, unforced spans of the tracked
    millisecond are rejected and the sampler does not change. *)
Lemma filters_exhausted (t : Z) (calls : list (timespec * RPCSpan)) :
  forall lg : RPCSpanLoggerDefault,
    span_timestamp lg = t ->
    span_limit lg <= span_count lg ->
    unset_within t calls ->
    filters lg calls = (lg, repeat false (List.length calls)).
Proof.
  induction calls as [| [ts span] rest IH]; intros lg Ht Hfull Hall.
  - reflexivity.
  - inversion Hall as [| c l [Hms Hid] Hrest]; subst c l. cbn in Hms, Hid.
    cbn [filters List.length repeat].
    rewrite filter_uncounted by (assumption || lia).
    destruct (millis ts >? span_timestamp lg) eqn:Hgt; [lia |].
    rewrite (IH lg Ht Hfull Hrest). reflexivity.
Qed.

(** With room for [k] more spans in the tracked millisecond, the first [k]
    unforced spans of that millisecond are accepted and the later ones
    rejected. *)
Lemma filters_budget (t : Z) (k : nat) :
  forall (lg : RPCSpanLoggerDefault) (calls : list (timespec * RPCSpan)),
    span_timestamp lg = t ->
    0 <= span_count lg ->
    span_count lg + Z.of_nat k = span_limit lg ->
    span_limit lg < 2 ^ 32 ->
    unset_within t calls ->
    (k <= List.length calls)%nat ->
    snd (filters lg calls)
    = (repeat true k ++ repeat false (List.length calls - k))%list.
Proof.
  induction k as [| k IH]; intros lg calls Ht Hc Hk Hlim Hall Hlen.
  - rewrite (filters_exhausted t) by (assumption || lia).
    cbn. now rewrite Nat.sub_0_r.
  - destruct calls as [| [ts span] rest]; [cbn in Hlen; lia |].
    inversion Hall as [| c l [Hms Hid] Hrest]; subst c l. cbn in Hms, Hid.
    cbn [filters List.length].
    rewrite filter_counted by (left; lia).
    assert (Hw : wrap32 (span_count lg + 1) = span_count lg + 1)
      by (apply Z.mod_small; lia).
    rewrite Hw.
    specialize (IH (mk_logger (span_limit lg) (span_timestamp lg)
                      (span_count lg + 1)) rest).
    cbn [span_timestamp span_count span_limit] in IH.
    destruct (filters _ rest) as [lg2 oks]. cbn [snd] in *.
    rewrite IH by (try assumption; cbn in Hlen; lia).
    reflexivity.
Qed.

(** Where the sampler keeps to [span_limit]: when it already tracks the
    millisecond of the burst with a count of zero, exactly the first [N] of
    [N + 5] spans with unset trace ids are accepted. *)
Lemma filters_tracked_millisecond
  (N : nat) (t : Z) (lg : RPCSpanLoggerDefault)
  (calls : list (timespec * RPCSpan)) :
  span_limit lg = Z.of_nat N ->
  Z.of_nat N < 2 ^ 32 ->
  List.length calls = (N + 5)%nat ->
  unset_within t calls ->
  span_timestamp lg = t -> span_count lg = 0 ->
  snd (filters lg calls) = (repeat true N ++ repeat false 5)%list.
Proof.
  intros Hlim Hn Hlen Hall Ht Hc.
  rewrite (filters_budget t N) by (try assumption; lia).
  rewrite Hlen. do 2 f_equal. lia.
Qed.

(** Where it does not, for every limit: when the burst starts a
    millisecond, its first span takes the rollover branch, which accepts
    it and leaves [span_count] at 0 where the counted branch would have
    left 1, so [N + 1] spans of the burst are accepted. *)
Lemma filters_new_millisecond
  (N : nat) (t : Z) (lg : RPCSpanLoggerDefault)
  (calls : list (timespec * RPCSpan)) :
  span_limit lg = Z.of_nat N ->
  Z.of_nat N < 2 ^ 32 ->
  List.length calls = (N + 5)%nat ->
  unset_within t calls ->
  span_timestamp lg < t ->
  snd (filters lg calls) = (repeat true (S N) ++ repeat false 4)%list.
Proof.
  intros Hlim Hn Hlen Hall Hlt.
  destruct calls as [| [ts span] rest]; [cbn in Hlen; lia |].
  inversion Hall as [| c l [Hms Hid] Hrest]; subst c l. cbn in Hms, Hid.
  cbn [filters].
  rewrite filter_uncounted by (assumption || lia).
  destruct (millis ts >? span_timestamp lg) eqn:Hgt; [| lia].
  cbn [List.length] in Hlen.
  pose proof (filters_budget t N
                (mk_logger (span_limit lg) (millis ts) 0) rest) as HB.
  cbn [span_timestamp span_count span_limit] in HB.
  destruct (filters _ rest) as [lg2 oks]. cbn [snd] in *.
  rewrite HB by (try assumption; lia).
  replace (List.length rest - N)%nat with 4%nat by lia. reflexivity.
Qed.

End Budget.

(** C5, at its failing input. A new sampler with [span_limit] set to 2
    gets 7 spans with unset trace ids while the clock reads millisecond 7:
    the first three are accepted and four are rejected, where the limit
    allows two and the claim has five rejected. *)
Lemma filters_new_sampler_accepts_one_more :
  let lg := set_span_limit (@RPCSpanLoggerDefault_new srpc_basic) 2 in
  let span := @RPCSpan_new srpc_basic 0 0 in
  let calls := repeat (mk_timespec 0 7000000, span) (2 + 5)%nat in
  span_limit lg = 2 /\
  @unset_within srpc_basic 7 calls /\
  snd (@filters srpc_basic lg calls)
  = [true; true; true; false; false; false; false] /\
  snd (@filters srpc_basic lg calls)
  <> (repeat true 2 ++ repeat false 5)%list.
Proof.
  cbv zeta. split; [| split; [| split]].
  - reflexivity.
  - unfold unset_within. repeat constructor.
  - vm_compute. reflexivity.
  - vm_compute. discriminate.
Qed.

(** ** C9: the default span *)

Section DefaultSpan.
Context {K : RpcBasic}.

(** The eight numeric members the initialiser list names start at their
    sentinels, and the three strings start empty. *)
Lemma RPCSpan_new_sentinels (status0 error0 : Z) :
  let span := RPCSpan_new status0 error0 in
  trace_id span = UINT64_UNSET /\
  span_id span = UINT_UNSET /\
  parent_span_id span = UINT_UNSET /\
  data_type span = INT_UNSET /\
  compress_type span = INT_UNSET /\
  start_time span = UINT64_UNSET /\
  end_time span = UINT64_UNSET /\
  cost span = UINT64_UNSET /\
  service_name span = EmptyString /\
  method_name span = EmptyString /\
  remote_ip span = EmptyString.
Proof. cbn. repeat split. Qed.

(** C9, at its failing input. [status] and [error] are not initialised:
    after [RPCSpan()] they hold what the storage held before, which need
    not be [INT_UNSET]. *)
Lemma RPCSpan_new_leaves_status_and_error :
  (forall status0 error0 : Z,
      status (RPCSpan_new status0 error0) = status0 /\
      error (RPCSpan_new status0 error0) = error0) /\
  (exists status0 error0 : Z,
      - 2 ^ 31 <= status0 < 2 ^ 31 /\ - 2 ^ 31 <= error0 < 2 ^ 31 /\
      status (RPCSpan_new status0 error0) <> INT_UNSET /\
      error (RPCSpan_new status0 error0) <> INT_UNSET).
Proof.
  split; [intros; split; reflexivity |].
  exists (if INT_UNSET =? 0 then 1 else 0), (if INT_UNSET =? 0 then 1 else 0).
  cbn. destruct (INT_UNSET =? 0) eqn:E.
  - apply Z.eqb_eq in E. repeat split; lia.
  - apply Z.eqb_neq in E. repeat split; lia.
Qed.

End DefaultSpan.

(** ** C8: the record of an accepted span *)

Local Open Scope string_scope.

Lemma append_assoc (a b c : string) : (a ++ b) ++ c = a ++ (b ++ c).
Proof. induction a as [| x a IH]; cbn; [reflexivity | now rewrite IH]. Qed.

Lemma append_nil_r (a : string) : a ++ "" = a.
Proof. induction a as [| x a IH]; cbn; [reflexivity | now rewrite IH]. Qed.

Lemma length_append (a b : string) :
  String.length (a ++ b) = (String.length a + String.length b)%nat.
Proof. induction a as [| x a IH]; cbn; [reflexivity | now rewrite IH]. Qed.

Lemma substring_all (a : string) : substring 0 (String.length a) a = a.
Proof. induction a as [| x a IH]; cbn; [reflexivity | now rewrite IH]. Qed.




Section Record.
Context {K : RpcBasic}.

(** A [sprintf] at the end of the C string in the buffer appends. *)
Lemma sprintf_at_end (str text : string) :
  sprintf_at str (String.length str) text
  = if (String.length str + String.length text + 1
        <=? SPAN_LOG_MAX_LENGTH)%nat
    then Some (str ++ text, String.length text)
    else None.
Proof.
  unfold sprintf_at.
  now rewrite Nat.leb_refl, substring_all.
Qed.

Lemma dispatch_formatted (span : RPCSpan) (err : list string) :
  dispatch span err
  = if (String.length (formatted span) + 1 <=? SPAN_LOG_MAX_LENGTH)%nat
    then Some (err ++ [("[SPAN_LOG] " ++ formatted span
                        ++ String LF EmptyString)%string])%list
    else None.
Proof.
  unfold dispatch, formatted.
  change 0%nat with (String.length EmptyString) at 1.
  rewrite sprintf_at_end. cbn [String.length String.append Nat.add].
  destruct (parent_span_id span =? UINT_UNSET)%Z;
    destruct (end_time span =? UINT64_UNSET)%Z;
    destruct (cost span =? UINT64_UNSET)%Z; cbn [negb];
    rewrite ?append_nil_r, ?length_append;
    repeat match goal with
      | |- context [(?a <=? ?b)%nat] =>
          destruct (Nat.leb_spec a b); cbn [bind]
      | |- context [sprintf_at ?s (String.length ?s) ?t] =>
          rewrite (sprintf_at_end s t); rewrite ?length_append
      | |- context [(String.length ?a + String.length ?b)%nat] =>
          rewrite <- (length_append a b)
      end.
  all: repeat match goal with
             | H : context [String.length (_ ++ _)] |- _ =>
                 rewrite length_append in H
             end; rewrite ?length_append.
  all: cbn [String.length String.append Nat.add] in *;
    rewrite ?append_assoc, ?append_nil_r; cbn [String.append].
  all: try reflexivity; try lia.
Qed.

(** The formatted text is the record of the design document. *)
Lemma formatted_record_body (span : RPCSpan) :
  formatted span = record_body span.
Proof.
  unfold formatted, record_body, record_fields, mandatory_fields,
    parent_fields, end_fields, cost_fields, token,
    head_text, parent_text, end_text, cost_text.
  destruct (parent_span_id span =? UINT_UNSET)%Z;
    destruct (end_time span =? UINT64_UNSET)%Z;
    destruct (cost span =? UINT64_UNSET)%Z;
    cbn [app map fst snd String.concat];
    rewrite ?append_assoc, ?append_nil_r; cbn [String.append];
    rewrite ?append_assoc, ?append_nil_r; reflexivity.
Qed.

Lemma dispatch_record (span : RPCSpan) (err : list string) :
  (String.length (record_body span) < SPAN_LOG_MAX_LENGTH)%nat ->
  dispatch span err = Some (err ++ [record_line span])%list.
Proof.
  intros Hfit. rewrite dispatch_formatted, formatted_record_body.
  destruct (Nat.leb_spec (String.length (record_body span) + 1)
              SPAN_LOG_MAX_LENGTH); [reflexivity | lia].
Qed.

Lemma dispatch_overrun (span : RPCSpan) (err : list string) :
  (SPAN_LOG_MAX_LENGTH <= String.length (record_body span))%nat ->
  dispatch span err = None.
Proof.
  intros Hfit. rewrite dispatch_formatted, formatted_record_body.
  destruct (Nat.leb_spec (String.length (record_body span) + 1)
              SPAN_LOG_MAX_LENGTH); [lia | reflexivity].
Qed.




(** A span the sampler rejects leaves nothing on [stderr]. *)
Lemma rejected_span_emits_nothing (lg : RPCSpanLoggerDefault) (ts : timespec)
  (span : RPCSpan) (err : list string) :
  snd (filter lg ts span) = false ->
  run_task (snd (create_log_task lg ts span)) err = Some err.
Proof.
  unfold create_log_task. destruct (filter lg ts span) as [lg1 ok].
  cbn [snd]. intros ->. reflexivity.
Qed.


End Record.



Local Close Scope string_scope.

(** * Further properties of the generator *)

(** X1. Whenever [SnowFlake(tb, gb, mb)] is defined for at least one
    timestamp bit, at most [TOTAL_BITS] of them and a group or machine
    field that is not empty, the object it builds has the layout
    [[timestamp][group][machine][sequence]]: the sequence field takes the
    bits the other three leave, every maximum is two to the width of its
    field, the shifts stack the fields without gap or overlap, and the
    counters start at [last_timestamp = 1] and [sequence = 0]. *)
Theorem SnowFlake_new_establishes_layout (tb gb mb : Z) (sf : SnowFlake) :
  1 <= tb <= TOTAL_BITS -> 0 <= gb -> 0 <= mb -> 1 <= gb + mb ->
  SnowFlake_new tb gb mb = Some sf ->
  layout_ok sf /\
  last_timestamp sf = 1 /\ sequence sf = 0 /\
  timestamp_bits sf = tb /\ group_bits sf = gb /\ machine_bits sf = mb /\
  sequence_bits sf = TOTAL_BITS - tb - gb - mb.
Proof.
  intros Htb Hgb Hmb Hgm Hnew.
  destruct (SnowFlake_new_layout tb gb mb sf Htb Hgb Hmb Hgm Hnew)
    as (L & _ & Etb & Egb & Emb).
  assert (Hinit : last_timestamp sf = 1 /\ sequence sf = 0).
  { revert Hnew. unfold SnowFlake_new.
    destruct (shl_int_one gb); [| discriminate].
    destruct (shl_int_one mb); [| discriminate].
    destruct (shl_int_one _); [| discriminate].
    intros [= <-]. split; reflexivity. }
  destruct Hinit as [Hl Hs].
  repeat (split; [assumption |]).
  destruct L as (_ & _ & _ & _ & _ & Hsum & _). lia.
Qed.

Lemma SnowFlake_new_establishes_layout_witness :
  layout_ok default_snowflake /\
  last_timestamp default_snowflake = 1 /\ sequence default_snowflake = 0 /\
  timestamp_bits default_snowflake = 37 /\
  group_bits default_snowflake = 5 /\
  machine_bits default_snowflake = 10 /\
  sequence_bits default_snowflake = TOTAL_BITS - 37 - 5 - 10.
Proof.
  apply (SnowFlake_new_establishes_layout 37 5 10 default_snowflake).
  - unfold TOTAL_BITS; lia.
  - lia.
  - lia.
  - lia.
  - reflexivity.
Defined.

(** X2. Within one millisecond the sequence number advances by two per
    call: for ids that fit their fields and a clock value that fits the
    timestamp field, when two successive successful calls with the same
    ids read the same millisecond and the second sequence number stays
    below [sequence_max], the second identifier is the first plus 2. *)
Theorem get_uid_same_millisecond
  (sf sf1 sf2 : SnowFlake) (ts1 ts2 : timespec) (g m A B : Z) :
  layout_ok sf ->
  0 <= g < group_id_max sf -> 0 <= m < machine_id_max sf ->
  millis ts1 < 2 ^ timestamp_bits sf ->
  millis ts2 = millis ts1 ->
  get_uid sf ts1 g m = (sf1, Some A) ->
  get_uid sf1 ts2 g m = (sf2, Some B) ->
  sequence sf1 + 1 < sequence_max sf ->
  B = A + 2.
Proof.
  intros L Hg Hm Ht Hsame C1 C2 Hroom.
  pose proof (get_uid_same_layout sf ts1 g m) as SL.
  rewrite C1 in SL; cbn [fst] in SL.
  pose proof (same_layout_ok _ _ SL L) as L1.
  destruct SL as (Etb & Egb & Emb & Esb & Egm & Emm & Esm & Ets & Egs & Ems).
  assert (Hmax : 0 <= sequence_max sf < 2 ^ 31).
  { destruct L as (_ & _ & _ & Hsb & _ & _ & _ & _ & -> & _).
    split; [apply Z.lt_le_incl, pow2_pos; lia |].
    apply Z.pow_lt_mono_r; lia. }
  pose proof (millis_range ts1) as R1.
  apply get_uid_success in C1; [| lia].
  apply get_uid_success in C2; [| rewrite Esm; lia].
  destruct C1 as (s1 & Hs1 & -> & _ & _ & _ & _ & _ & Hl1 & Hq1).
  destruct C2 as (s2 & Hs2 & -> & _ & _ & _ & Hsame2 & _).
  rewrite Hl1 in Hsame2. specialize (Hsame2 Hsame).
  assert (Hw1 : wrap64 (s1 + 1) = s1 + 1) by (apply Z.mod_small; lia).
  rewrite Hq1, Hw1 in *.
  assert (Hw2 : wrap64 (s1 + 1 + 1) = s1 + 2)
    by (unfold wrap64; rewrite Z.mod_small by lia; lia).
  rewrite Hw2 in Hsame2. subst s2.
  rewrite (pack_uid_sum sf) by (try assumption; lia).
  rewrite (pack_uid_sum sf1)
    by (rewrite ?Etb, ?Egm, ?Emm, ?Esm; try assumption; lia).
  rewrite Egb, Emb, Esb, Hsame. lia.
Qed.

Lemma get_uid_same_millisecond_witness : 683696130 = 683696128 + 2.
Proof.
  apply (get_uid_same_millisecond default_snowflake
           (mk_SnowFlake 5 1 37 5 10 12 32 1024 4096 27 22 12)
           (mk_SnowFlake 5 3 37 5 10 12 32 1024 4096 27 22 12)
           (mk_timespec 0 5000000) (mk_timespec 0 5999999) 3 6).
  - unfold layout_ok, TOTAL_BITS; cbn. repeat split; lia.
  - cbn; lia.
  - cbn; lia.
  - vm_compute. reflexivity.
  - reflexivity.
  - reflexivity.
  - reflexivity.
  - cbn; lia.
Defined.

(** X3. After a successful call, a call that reads an earlier millisecond
    fails, whatever its ids are, and leaves the object as the successful
    call left it. *)
Theorem get_uid_clock_regression
  (sf sf1 : SnowFlake) (ts1 ts2 : timespec) (g1 m1 g2 m2 A : Z) :
  get_uid sf ts1 g1 m1 = (sf1, Some A) ->
  millis ts2 < millis ts1 ->
  get_uid sf1 ts2 g2 m2 = (sf1, None).
Proof.
  intros C Hback.
  assert (Hl : last_timestamp sf1 = millis ts1).
  { revert C. unfold get_uid, emit_uid.
    repeat match goal with
           | |- context [if ?b then _ else _] => destruct b
           end; try discriminate; intros [= <- _]; reflexivity. }
  unfold get_uid.
  destruct ((g2 >? machine_id_max sf1) || (m2 >? machine_id_max sf1));
    [reflexivity |].
  rewrite Hl. destruct (millis ts2 <? millis ts1) eqn:E; [reflexivity | lia].
Qed.

Lemma get_uid_clock_regression_witness :
  get_uid (mk_SnowFlake 5 1 37 5 10 12 32 1024 4096 27 22 12)
    (mk_timespec 0 4000000) 0 0
  = (mk_SnowFlake 5 1 37 5 10 12 32 1024 4096 27 22 12, None).
Proof.
  apply (get_uid_clock_regression default_snowflake
           (mk_SnowFlake 5 1 37 5 10 12 32 1024 4096 27 22 12)
           (mk_timespec 0 5000000) (mk_timespec 0 4000000) 0 0 0 0
           671088640).
  - reflexivity.
  - vm_compute. reflexivity.
Defined.

(** *** How many identifiers one millisecond gives *)

Lemma get_uid_same_ms_step (sf : SnowFlake) (ts : timespec) (g m : Z) :
  millis ts = last_timestamp sf ->
  g <= machine_id_max sf -> m <= machine_id_max sf ->
  0 <= sequence sf -> sequence sf + 2 < 2 ^ 64 ->
  get_uid sf ts g m
  = if sequence sf + 1 >? sequence_max sf
    then (set_sequence sf (sequence sf + 1), None)
    else (set_last_timestamp (set_sequence sf (sequence sf + 2)) (millis ts),
          Some (pack_uid sf (millis ts) g m (sequence sf + 1))).
Proof.
  intros Ht Hg Hm H0 Hw. unfold get_uid, emit_uid.
  destruct (g >? machine_id_max sf) eqn:Eg; [lia |].
  destruct (m >? machine_id_max sf) eqn:Em; [lia |].
  cbn [orb].
  destruct (millis ts <? last_timestamp sf) eqn:Elt; [lia |].
  destruct (millis ts =? last_timestamp sf) eqn:Eeq; [| lia].
  assert (W1 : wrap64 (sequence sf + 1) = sequence sf + 1)
    by (apply Z.mod_small; lia).
  cbn. rewrite W1.
  destruct (sequence sf + 1 >? sequence_max sf); [reflexivity |].
  assert (W2 : wrap64 (sequence sf + 1 + 1) = sequence sf + 2)
    by (unfold wrap64; rewrite Z.mod_small by lia; lia).
  rewrite W2. reflexivity.
Qed.

(** Once [sequence] has reached [sequence_max], every call of that
    millisecond fails. *)
Lemma get_uids_exhausted (t : Z) (calls : list (timespec * Z * Z)) :
  forall sf : SnowFlake,
    last_timestamp sf = t ->
    0 <= sequence sf ->
    sequence_max sf <= sequence sf ->
    sequence sf + Z.of_nat (List.length calls) + 1 < 2 ^ 64 ->
    burst_at sf t calls ->
    map returned (snd (get_uids sf calls))
    = repeat false (List.length calls).
Proof.
  induction calls as [| [[ts g] m] rest IH]; intros sf Ht H0 Hfull Hw Hall.
  - reflexivity.
  - inversion Hall as [| c l (Hc & Hg & Hm) Hrest]; subst c l.
    unfold clock_of in Hc. cbn in Hc, Hg, Hm.
    cbn [List.length] in Hw. cbn [get_uids].
    rewrite get_uid_same_ms_step by lia.
    destruct (sequence sf + 1 >? sequence_max sf) eqn:E; [| lia].
    specialize (IH (set_sequence sf (sequence sf + 1))).
    cbn [last_timestamp sequence sequence_max set_sequence] in IH.
    destruct (get_uids _ rest) as [sf2 rs]. cbn [snd] in *.
    cbn [map returned repeat List.length]. f_equal.
    apply IH; try lia. exact Hrest.
Qed.

(** With [sequence] at [c] in the current millisecond, the calls that
    still succeed are those that find [c + 1], [c + 3], ... at most
    [sequence_max]. *)
Lemma get_uids_budget (t : Z) (k : nat) :
  forall (sf : SnowFlake) (calls : list (timespec * Z * Z)),
    last_timestamp sf = t ->
    0 <= sequence sf ->
    sequence sf + 2 * Z.of_nat k <= sequence_max sf + 1 ->
    sequence_max sf < sequence sf + 2 * Z.of_nat k + 1 ->
    sequence sf + 2 * Z.of_nat (List.length calls) + 1 < 2 ^ 64 ->
    burst_at sf t calls ->
    map returned (snd (get_uids sf calls))
    = (repeat true (Nat.min k (List.length calls))
         ++ repeat false (List.length calls - k))%list.
Proof.
  induction k as [| k IH]; intros sf calls Ht H0 Hlo Hhi Hw Hall.
  - rewrite (get_uids_exhausted t) by (assumption || lia).
    cbn. now rewrite Nat.sub_0_r.
  - destruct calls as [| [[ts g] m] rest]; [reflexivity |].
    inversion Hall as [| c l (Hc & Hg & Hm) Hrest]; subst c l.
    unfold clock_of in Hc. cbn in Hc, Hg, Hm.
    cbn [List.length] in Hw. cbn [get_uids].
    rewrite get_uid_same_ms_step by lia.
    destruct (sequence sf + 1 >? sequence_max sf) eqn:E; [lia |].
    specialize (IH (set_last_timestamp (set_sequence sf (sequence sf + 2))
                      (millis ts)) rest).
    cbn [last_timestamp sequence sequence_max set_sequence
           set_last_timestamp] in IH.
    destruct (get_uids _ rest) as [sf2 rs]. cbn [snd] in *.
    cbn [map returned List.length Nat.min Nat.sub repeat app]. f_equal.
    apply IH; try lia. exact Hrest.
Qed.

(** X4. A millisecond gives [sequence_max / 2 + 1] identifiers. When a
    burst of calls that pass the id check reads one millisecond, later
    than [last_timestamp], the first [sequence_max / 2 + 1] calls succeed
    and every later call of the burst fails, whatever [sequence] was
    before the burst (fewer than [2 ^ 63] calls, so that the counter does
    not wrap). *)
Theorem get_uids_capacity (sf : SnowFlake) (t : Z)
  (calls : list (timespec * Z * Z)) :
  last_timestamp sf < t ->
  0 <= sequence_max sf ->
  2 * Z.of_nat (List.length calls) + 2 < 2 ^ 64 ->
  burst_at sf t calls ->
  let capacity := S (Z.to_nat (sequence_max sf / 2)) in
  map returned (snd (get_uids sf calls))
  = (repeat true (Nat.min capacity (List.length calls))
       ++ repeat false (List.length calls - capacity))%list.
Proof.
  intros Hnew Hmax Hw Hall capacity. subst capacity.
  destruct calls as [| [[ts g] m] rest]; [reflexivity |].
  inversion Hall as [| c l (Hc & Hg & Hm) Hrest]; subst c l.
  unfold clock_of in Hc. cbn in Hc, Hg, Hm.
  cbn [List.length] in Hw. cbn [get_uids].
  assert (E : get_uid sf ts g m
              = (set_last_timestamp (set_sequence sf 1) t,
                 Some (pack_uid sf t g m 0))).
  { unfold get_uid, emit_uid.
    destruct (g >? machine_id_max sf) eqn:Eg; [lia |].
    destruct (m >? machine_id_max sf) eqn:Em; [lia |].
    cbn [orb].
    destruct (millis ts <? last_timestamp sf) eqn:Elt; [lia |].
    destruct (millis ts =? last_timestamp sf) eqn:Eeq; [lia |].
    cbn. rewrite Hc. reflexivity. }
  rewrite E.
  pose proof (get_uids_budget t (Z.to_nat (sequence_max sf / 2))
                (set_last_timestamp (set_sequence sf 1) t) rest) as HB.
  cbn [last_timestamp sequence sequence_max set_sequence
         set_last_timestamp] in HB.
  destruct (get_uids _ rest) as [sf2 rs]. cbn [snd] in *.
  cbn [map returned List.length Nat.min Nat.sub repeat app]. f_equal.
  pose proof (Z.div_mod (sequence_max sf) 2 ltac:(lia)) as D.
  pose proof (Z.mod_pos_bound (sequence_max sf) 2 ltac:(lia)) as M.
  assert (0 <= sequence_max sf / 2) by (apply Z.div_pos; lia).
  apply HB; rewrite ?Z2Nat.id by assumption; try lia. exact Hrest.
Qed.

Lemma get_uids_capacity_witness :
  let sf := mk_SnowFlake 1 0 37 16 10 1 65536 1024 2 27 11 1 in
  let calls := repeat (mk_timespec 0 5000000, 3, 6) 4%nat in
  let capacity := S (Z.to_nat (sequence_max sf / 2)) in
  map returned (snd (get_uids sf calls))
  = (repeat true (Nat.min capacity (List.length calls))
       ++ repeat false (List.length calls - capacity))%list.
Proof.
  apply (get_uids_capacity (mk_SnowFlake 1 0 37 16 10 1 65536 1024 2 27 11 1)
           5).
  - cbn; lia.
  - cbn; lia.
  - cbn; lia.
  - unfold burst_at. repeat constructor; cbn; lia.
Defined.

Lemma get_uids_increasing_witness :
  StronglySorted Z.lt
    (successes
       (snd (get_uids default_snowflake
               [(mk_timespec 0 5000000, 0, 0);
                (mk_timespec 0 6000000, 3, 6)]))).
Proof.
  apply (get_uids_increasing
           [(mk_timespec 0 5000000, 0, 0); (mk_timespec 0 6000000, 3, 6)]
           default_snowflake).
  - unfold layout_ok, TOTAL_BITS; cbn. repeat split; lia.
  - repeat constructor; cbn; try lia; vm_compute; reflexivity.
  - repeat constructor; vm_compute; reflexivity.
Defined.

(** *** What no run of calls changes *)

Lemma get_uid_last_timestamp_le (sf : SnowFlake) (ts : timespec) (g m : Z) :
  last_timestamp sf <= last_timestamp (fst (get_uid sf ts g m)).
Proof.
  unfold get_uid, emit_uid.
  destruct ((g >? machine_id_max sf) || (m >? machine_id_max sf));
    [cbn; lia |].
  destruct (millis ts <? last_timestamp sf) eqn:Hlt; [cbn; lia |].
  destruct (millis ts =? last_timestamp sf) eqn:Heq; cbn.
  - destruct (wrap64 (sequence sf + 1) >? sequence_max sf); cbn; lia.
  - lia.
Qed.

(** X6. Whatever calls are made, with whatever clock values and ids, the
    ten configuration members stay as they were, [last_timestamp] never
    goes back, and both counters stay [uint64_t] values. *)
Theorem get_uids_invariants (calls : list (timespec * Z * Z)) :
  forall sf : SnowFlake,
    state_ok sf ->
    let sf' := fst (get_uids sf calls) in
    same_layout sf sf' /\ state_ok sf' /\
    last_timestamp sf <= last_timestamp sf'.
Proof.
  induction calls as [| [[ts g] m] rest IH]; intros sf S; cbn zeta.
  - cbn. split; [unfold same_layout; repeat split |].
    split; [assumption | lia].
  - cbn [get_uids].
    pose proof (get_uid_same_layout sf ts g m) as SL.
    pose proof (get_uid_state_ok sf ts g m S) as S1.
    pose proof (get_uid_last_timestamp_le sf ts g m) as M1.
    destruct (get_uid sf ts g m) as [sf1 r]. cbn [fst] in *.
    destruct (IH sf1 S1) as (SL2 & S2 & M2).
    destruct (get_uids sf1 rest) as [sf2 rs]. cbn [fst] in *.
    split; [| split; [assumption | lia]].
    unfold same_layout in *. intuition congruence.
Qed.

Lemma get_uids_invariants_witness :
  let calls := [(mk_timespec 0 5000000, 0, 0); (mk_timespec 0 4000000, 0, 0);
                (mk_timespec 0 5000000, 2000, 0)] in
  let sf' := fst (get_uids default_snowflake calls) in
  same_layout default_snowflake sf' /\ state_ok sf' /\
  last_timestamp default_snowflake <= last_timestamp sf'.
Proof.
  apply (get_uids_invariants
           [(mk_timespec 0 5000000, 0, 0); (mk_timespec 0 4000000, 0, 0);
            (mk_timespec 0 5000000, 2000, 0)] default_snowflake).
  unfold state_ok; cbn; lia.
Defined.

(** X7. When a call returns an identifier: exactly when both ids are at
    most [machine_id_max] and the clock is either ahead of
    [last_timestamp], or equal to it with the incremented [sequence] at
    most [sequence_max]. *)
Theorem get_uid_succeeds_iff (sf : SnowFlake) (ts : timespec) (g m : Z) :
  snd (get_uid sf ts g m) <> None
  <-> g <= machine_id_max sf /\ m <= machine_id_max sf /\
      (last_timestamp sf < millis ts
       \/ (millis ts = last_timestamp sf
           /\ wrap64 (sequence sf + 1) <= sequence_max sf)).
Proof.
  unfold get_uid, emit_uid.
  destruct (g >? machine_id_max sf) eqn:Hg;
    destruct (m >? machine_id_max sf) eqn:Hm; cbn [orb snd];
    try (split; [congruence | lia]).
  destruct (millis ts <? last_timestamp sf) eqn:Hlt; cbn [snd];
    [split; [congruence | lia] |].
  destruct (millis ts =? last_timestamp sf) eqn:Heq; cbn.
  - destruct (wrap64 (sequence sf + 1) >? sequence_max sf) eqn:Hs; cbn.
    + split; [congruence | lia].
    + split; [intros _; lia | discriminate].
  - split; [intros _; lia | discriminate].
Qed.

(** *** The sequence number [sequence_max] *)

(** X8. The call that takes the sequence number [sequence_max] returns an
    identifier that is not its own: it is the identifier of machine
    [machine_id | 1] with sequence number 0, the one a first call of that
    millisecond returns for that machine on any instance with this
    layout. *)
Theorem get_uid_sequence_max_collides
  (sf sf' : SnowFlake) (ts : timespec) (g m uid : Z) :
  layout_ok sf -> 1 <= machine_bits sf ->
  0 <= m < machine_id_max sf ->
  millis ts = last_timestamp sf ->
  wrap64 (sequence sf + 1) = sequence_max sf ->
  get_uid sf ts g m = (sf', Some uid) ->
  0 <= Z.lor m 1 < machine_id_max sf /\
  uid = pack_uid sf (millis ts) g (Z.lor m 1) 0 /\
  forall sf0 : SnowFlake,
    same_layout sf sf0 -> last_timestamp sf0 < millis ts ->
    snd (get_uid sf0 ts g (Z.lor m 1)) = Some uid.
Proof.
  intros L Hmb Hm Hsame Hseq C.
  assert (Hmax : 0 <= sequence_max sf).
  { destruct L as (_ & _ & _ & Hsb & _ & _ & _ & _ & -> & _).
    apply Z.lt_le_incl, pow2_pos; lia. }
  apply get_uid_success in C; [| exact Hmax].
  destruct C as (s & Hs & -> & Hg & _ & _ & Hs1 & _).
  rewrite (Hs1 Hsame), Hseq in *. clear Hs1 s.
  destruct L as
    (Htb & Hgb & Hmb' & Hsb & Hgm & Hsum & Eg & Em & Es & Ems & Egs & Ets).
  unfold TOTAL_BITS in Hsum.
  assert (Hm1 : 0 <= Z.lor m 1 < machine_id_max sf).
  { rewrite Em in *. apply lor_below_pow2; try lia.
    assert (2 ^ 1 <= 2 ^ machine_bits sf) by (apply Z.pow_le_mono_r; lia).
    lia. }
  assert (E : pack_uid sf (millis ts) g m (sequence_max sf)
              = pack_uid sf (millis ts) g (Z.lor m 1) 0).
  { unfold pack_uid. rewrite Z.lor_0_r, <- Z.lor_assoc. f_equal.
    rewrite Em in Hm, Hm1.
    destruct (shl64_small m (machine_shift sf) (machine_bits sf))
      as [-> _]; try lia.
    destruct (shl64_small (Z.lor m 1) (machine_shift sf) (machine_bits sf))
      as [-> _]; try lia.
    rewrite Es, Ems, <- !Z.shiftl_mul_pow2 by lia.
    rewrite <- (Z.shiftl_1_l (sequence_bits sf)).
    now rewrite <- Z.shiftl_lor. }
  split; [exact Hm1 |]. split; [exact E |].
  intros sf0 SL Hnew.
  destruct SL as (_ & _ & _ & _ & _ & Emm & _ & Ets0 & Egs0 & Ems0).
  unfold get_uid, emit_uid. rewrite Emm.
  destruct (g >? machine_id_max sf) eqn:Eg'; [lia |].
  destruct (Z.lor m 1 >? machine_id_max sf) eqn:Em'; [lia |].
  cbn [orb].
  destruct (millis ts <? last_timestamp sf0) eqn:Elt; [lia |].
  destruct (millis ts =? last_timestamp sf0) eqn:Eeq; [lia |].
  cbn. rewrite E. unfold pack_uid. cbn.
  now rewrite Ets0, Egs0, Ems0.
Qed.

Lemma get_uid_sequence_max_collides_witness :
  let sf := mk_SnowFlake 5 4095 37 5 10 12 32 1024 4096 27 22 12 in
  let ts := mk_timespec 0 5000000 in
  0 <= Z.lor 6 1 < machine_id_max sf /\
  683700224 = pack_uid sf (millis ts) 3 (Z.lor 6 1) 0 /\
  forall sf0 : SnowFlake,
    same_layout sf sf0 -> last_timestamp sf0 < millis ts ->
    snd (get_uid sf0 ts 3 (Z.lor 6 1)) = Some 683700224.
Proof.
  apply (get_uid_sequence_max_collides
           (mk_SnowFlake 5 4095 37 5 10 12 32 1024 4096 27 22 12)
           (mk_SnowFlake 5 4097 37 5 10 12 32 1024 4096 27 22 12)
           (mk_timespec 0 5000000) 3 6 683700224).
  - unfold layout_ok, TOTAL_BITS; cbn. repeat split; lia.
  - cbn; lia.
  - cbn; lia.
  - reflexivity.
  - reflexivity.
  - reflexivity.
Defined.

(** *** The clock beyond the timestamp field *)

(** The four fields of an identifier whose parts fit read back as they
    were packed. *)
Lemma pack_uid_decode (sf : SnowFlake) (t g m s : Z) :
  layout_ok sf ->
  0 <= t < 2 ^ timestamp_bits sf ->
  0 <= g < group_id_max sf ->
  0 <= m < machine_id_max sf ->
  0 <= s < sequence_max sf ->
  let uid := pack_uid sf t g m s in
  decode_timestamp sf uid = t /\ decode_group sf uid = g /\
  decode_machine sf uid = m /\ decode_sequence sf uid = s.
Proof.
  intros L Ht Hg Hm Hs. cbn zeta.
  rewrite pack_uid_sum by assumption.
  destruct L as
    (Htb & Hgb & Hmb & Hsb & Hgm & Hsum & Eg & Em & Es & Ems & Egs & Ets).
  unfold decode_timestamp, decode_group, decode_machine, decode_sequence.
  rewrite Eg, Em, Es, Ets, Egs, Ems in *.
  set (sb := sequence_bits sf) in *.
  set (mb := machine_bits sf) in *.
  set (gb := group_bits sf) in *.
  pose proof (pow2_pos sb ltac:(lia)) as Ps.
  pose proof (pow2_pos mb ltac:(lia)) as Pm.
  pose proof (pow2_pos gb ltac:(lia)) as Pg.
  rewrite !land_mask, !Z.shiftr_div_pow2 by lia.
  set (x := ((t * 2 ^ gb + g) * 2 ^ mb + m) * 2 ^ sb + s).
  destruct (div_mod_digit ((t * 2 ^ gb + g) * 2 ^ mb + m) s (2 ^ sb))
    as [D1 M1]; try lia.
  destruct (div_mod_digit (t * 2 ^ gb + g) m (2 ^ mb)) as [D2 M2]; try lia.
  destruct (div_mod_digit t g (2 ^ gb)) as [D3 M3]; try lia.
  fold x in D1, M1.
  assert (X1 : x / 2 ^ (sb + mb) = t * 2 ^ gb + g).
  { rewrite Z.pow_add_r, <- Z.div_div, D1, D2 by lia. reflexivity. }
  assert (X2 : x / 2 ^ (sb + mb + gb) = t).
  { rewrite (Z.pow_add_r _ (sb + mb)), <- Z.div_div, X1, D3 by lia.
    reflexivity. }
  rewrite X2, X1, D1, M1, M2, M3. repeat split.
Qed.

(** The shift keeps the clock modulo [2 ^ timestamp_bits]. *)
Lemma pack_uid_clock_mod (sf : SnowFlake) (t g m s : Z) :
  layout_ok sf ->
  pack_uid sf t g m s = pack_uid sf (t mod 2 ^ timestamp_bits sf) g m s.
Proof.
  intros (Htb & Hgb & Hmb & Hsb & Hgm & Hsum & Eg & Em & Es & Ems & Egs & Ets).
  unfold TOTAL_BITS in Hsum.
  unfold pack_uid. do 3 f_equal. unfold shl64, wrap64.
  rewrite !Z.shiftl_mul_pow2 by lia.
  replace (2 ^ 64)
    with (2 ^ timestamp_bits sf * 2 ^ timestamp_shift sf)
    by (rewrite <- Z.pow_add_r by lia; f_equal; lia).
  pose proof (pow2_pos (timestamp_bits sf) ltac:(lia)).
  pose proof (pow2_pos (timestamp_shift sf) ltac:(lia)).
  rewrite !Z.mul_mod_distr_r by lia.
  now rewrite Z.mod_mod by lia.
Qed.

(** X9. Whatever the clock reads, an identifier carries the clock value
    modulo [2 ^ timestamp_bits]: for ids that fit their fields and a
    sequence number that is not [sequence_max], the timestamp field of a
    returned identifier is the clock value reduced modulo
    [2 ^ timestamp_bits], and the group and machine fields are the ids. *)
Theorem get_uid_keeps_clock_modulo
  (sf sf' : SnowFlake) (ts : timespec) (g m uid : Z) :
  layout_ok sf ->
  0 <= g < group_id_max sf -> 0 <= m < machine_id_max sf ->
  (millis ts = last_timestamp sf ->
   wrap64 (sequence sf + 1) <> sequence_max sf) ->
  get_uid sf ts g m = (sf', Some uid) ->
  decode_timestamp sf uid = millis ts mod 2 ^ timestamp_bits sf /\
  decode_group sf uid = g /\
  decode_machine sf uid = m.
Proof.
  intros L Hg Hm Hseq C.
  assert (Hsb : 0 <= sequence_bits sf
                /\ sequence_max sf = 2 ^ sequence_bits sf)
    by (destruct L as (_ & _ & _ & ? & _ & _ & _ & _ & ? & _); split;
        [lia | assumption]).
  destruct Hsb as [Hsb Es].
  pose proof (pow2_pos _ Hsb) as Ps.
  apply get_uid_success in C; [| lia].
  destruct C as (s & Hs & -> & _ & _ & Hle & Hsame & Hnew & _).
  assert (Hs' : 0 <= s < sequence_max sf).
  { destruct (Z.eq_dec (millis ts) (last_timestamp sf)) as [E | E].
    - specialize (Hseq E). rewrite <- (Hsame E) in Hseq. lia.
    - rewrite Hnew by lia. lia. }
  rewrite pack_uid_clock_mod by assumption.
  assert (Htb : 0 <= timestamp_bits sf)
    by (destruct L as (? & _); lia).
  pose proof (Z.mod_pos_bound (millis ts) (2 ^ timestamp_bits sf)
                (pow2_pos _ Htb)) as Hmod.
  destruct (pack_uid_decode sf (millis ts mod 2 ^ timestamp_bits sf) g m s)
    as (D1 & D2 & D3 & _); try assumption.
  repeat split; assumption.
Qed.

Lemma get_uid_keeps_clock_modulo_witness :
  let ts := mk_timespec 137438953 477000000 in
  decode_timestamp default_snowflake 683696128
  = millis ts mod 2 ^ timestamp_bits default_snowflake /\
  decode_group default_snowflake 683696128 = 3 /\
  decode_machine default_snowflake 683696128 = 6.
Proof.
  apply (get_uid_keeps_clock_modulo default_snowflake
           (mk_SnowFlake 137438953477 1 37 5 10 12 32 1024 4096 27 22 12)
           (mk_timespec 137438953 477000000) 3 6 683696128).
  - unfold layout_ok, TOTAL_BITS; cbn. repeat split; lia.
  - cbn; lia.
  - cbn; lia.
  - vm_compute. discriminate.
  - vm_compute. reflexivity.
Defined.

(** * Further properties of the sampler *)

Section SamplerRuns.
Context {K : RpcBasic}.

(** X10. When the sampler rejects: exactly when the span carries the unset
    trace id and the clock is behind the tracked millisecond, or equal to
    it with [span_count] at [span_limit] or above. A rejection leaves the
    sampler as it was. *)
Theorem filter_rejects_iff (lg : RPCSpanLoggerDefault) (ts : timespec)
  (span : RPCSpan) :
  (snd (filter lg ts span) = false
   <-> trace_id span = UINT64_UNSET /\
       (millis ts < span_timestamp lg
        \/ (millis ts = span_timestamp lg
            /\ span_limit lg <= span_count lg))) /\
  (snd (filter lg ts span) = false -> fst (filter lg ts span) = lg).
Proof.
  unfold filter.
  destruct (Z.eqb_spec (trace_id span) UINT64_UNSET) as [Eid | Eid];
    destruct (Z.eqb_spec (millis ts) (span_timestamp lg)) as [Et | Et];
    destruct (Z.ltb_spec (span_count lg) (span_limit lg)) as [Ec | Ec];
    cbn [andb orb negb];
    try (destruct (millis ts >? span_timestamp lg) eqn:Egt);
    cbn [fst snd];
    (split; [split; [intros; try discriminate; try (split; [assumption |]; lia)
                    | intros (? & ?); try reflexivity; try contradiction;
                      try lia]
            | intros; try discriminate; reflexivity]).
Qed.

(** One call never adds to what is left of the budget of a millisecond,
    and an unforced span accepted in that millisecond takes one from it. *)
Lemma filter_room (lg : RPCSpanLoggerDefault) (ts : timespec)
  (span : RPCSpan) (t : Z) :
  0 <= span_count lg -> 0 <= span_limit lg ->
  span_count lg + 1 < 2 ^ 32 ->
  let lg' := fst (filter lg ts span) in
  0 <= span_count lg' <= span_count lg + 1 /\
  span_limit lg' = span_limit lg /\
  (if snd (filter lg ts span) && (millis ts =? t)
      && (trace_id span =? UINT64_UNSET) then 1 else 0)
  + room lg' t <= room lg t.
Proof.
  intros Hc Hl Hw. cbn zeta. unfold filter, room.
  assert (W : wrap32 (span_count lg + 1) = span_count lg + 1)
    by (apply Z.mod_small; lia).
  destruct (Z.eqb_spec (trace_id span) UINT64_UNSET) as [Eid | Eid];
    destruct (Z.eqb_spec (millis ts) (span_timestamp lg)) as [Et | Et];
    destruct (Z.ltb_spec (span_count lg) (span_limit lg)) as [Ec | Ec];
    cbn [andb orb negb];
    try (destruct (millis ts >? span_timestamp lg) eqn:Egt);
    cbn [fst snd span_count span_limit span_timestamp andb];
    rewrite ?W;
    (split; [lia | split; [reflexivity |]]);
    destruct (Z.eqb_spec (millis ts) t);
    destruct (Z.ltb_spec (span_timestamp lg) t);
    destruct (Z.eqb_spec (span_timestamp lg) t);
    try destruct (Z.ltb_spec (millis ts) t);
    try destruct (Z.eqb_spec (millis ts) t);
    cbn [andb]; try lia.
Qed.

Lemma filters_room (t : Z) (calls : list (timespec * RPCSpan)) :
  forall lg : RPCSpanLoggerDefault,
    0 <= span_count lg -> 0 <= span_limit lg ->
    span_count lg + Z.of_nat (List.length calls) < 2 ^ 32 ->
    unforced_accepted_at t calls (snd (filters lg calls)) <= room lg t.
Proof.
  induction calls as [| [ts span] rest IH]; intros lg Hc Hl Hw.
  - cbn. unfold room.
    destruct (span_timestamp lg <? t); [lia |].
    destruct (span_timestamp lg =? t); lia.
  - cbn [List.length] in Hw. cbn [filters].
    pose proof (filter_room lg ts span t Hc Hl ltac:(lia)) as (Hc1 & Hl1 & R).
    destruct (filter lg ts span) as [lg1 ok]. cbn [fst snd] in *.
    specialize (IH lg1 ltac:(lia) ltac:(lia) ltac:(lia)).
    destruct (filters lg1 rest) as [lg2 oks]. cbn [snd] in *.
    cbn [unforced_accepted_at]. lia.
Qed.

(** X11. The volume bound of the sampler. In any run of submissions,
    forced and unforced mixed, with any clock values, at most
    [span_limit + 1] spans with the unset trace id are accepted for any one
    millisecond (the count is an [unsigned int] that the run does not wrap:
    [span_count] plus the number of submissions stays below [2 ^ 32]). *)
Theorem filters_rate_bound (t : Z) (lg : RPCSpanLoggerDefault)
  (calls : list (timespec * RPCSpan)) :
  0 <= span_count lg -> 0 <= span_limit lg ->
  span_count lg + Z.of_nat (List.length calls) < 2 ^ 32 ->
  unforced_accepted_at t calls (snd (filters lg calls)) <= span_limit lg + 1.
Proof.
  intros Hc Hl Hw.
  pose proof (filters_room t calls lg Hc Hl Hw) as R.
  unfold room in R.
  destruct (span_timestamp lg <? t); [lia |].
  destruct (span_timestamp lg =? t); lia.
Qed.

Lemma filter_frame (lg : RPCSpanLoggerDefault) (ts : timespec)
  (span : RPCSpan) :
  span_limit (fst (filter lg ts span)) = span_limit lg /\
  span_timestamp lg <= span_timestamp (fst (filter lg ts span)).
Proof.
  unfold filter.
  destruct (_ || _); cbn; [lia |].
  destruct (millis ts >? span_timestamp lg) eqn:E; cbn; lia.
Qed.

(** X12. Whatever spans are submitted, with whatever clock values,
    [span_limit] stays as it was set, the tracked millisecond never goes
    back, and [span_count] stays an [unsigned int] value. *)
Theorem filters_invariants (calls : list (timespec * RPCSpan)) :
  forall lg : RPCSpanLoggerDefault,
    let lg' := fst (filters lg calls) in
    span_limit lg' = span_limit lg /\
    span_timestamp lg <= span_timestamp lg' /\
    (0 <= span_count lg < 2 ^ 32 -> 0 <= span_count lg' < 2 ^ 32).
Proof.
  induction calls as [| [ts span] rest IH]; intros lg; cbn zeta.
  - cbn. repeat split; lia.
  - cbn [filters].
    pose proof (filter_frame lg ts span) as (Hl & Ht).
    assert (Hc : 0 <= span_count lg < 2 ^ 32 ->
                 0 <= span_count (fst (filter lg ts span)) < 2 ^ 32).
    { unfold filter. intros Hc.
      destruct (_ || _); cbn; [apply Z.mod_pos_bound; lia |].
      destruct (millis ts >? span_timestamp lg); cbn; lia. }
    destruct (filter lg ts span) as [lg1 ok]. cbn [fst] in *.
    specialize (IH lg1). cbn zeta in IH.
    destruct (filters lg1 rest) as [lg2 oks]. cbn [fst] in *.
    destruct IH as (IH1 & IH2 & IH3).
    repeat split; try lia; apply IH3, Hc; assumption.
Qed.

(** X13. A span with the unset trace id that arrives with the clock behind
    the tracked millisecond, or within it once [span_count] has reached
    [span_limit], is dropped: [create_log_task] leaves the logger as it
    was and returns the empty task, and running that task writes nothing
    to [stderr]. *)
Theorem create_log_task_drops (lg : RPCSpanLoggerDefault) (ts : timespec)
  (span : RPCSpan) (err : list string) :
  trace_id span = UINT64_UNSET ->
  (millis ts < span_timestamp lg
   \/ (millis ts = span_timestamp lg /\ span_limit lg <= span_count lg)) ->
  create_log_task lg ts span = (lg, EmptyTask) /\
  run_task (snd (create_log_task lg ts span)) err = Some err.
Proof.
  intros Hid Hlate. unfold create_log_task.
  rewrite filter_uncounted by (assumption || lia).
  destruct (millis ts >? span_timestamp lg) eqn:E; [lia |].
  split; reflexivity.
Qed.

End SamplerRuns.

Lemma filters_rate_bound_witness :
  let calls := repeat (mk_timespec 0 7000000, @RPCSpan_new srpc_basic 0 0)
                      7%nat in
  @unforced_accepted_at srpc_basic 7 calls
    (snd (@filters srpc_basic (mk_logger 2 0 0) calls))
  <= span_limit (mk_logger 2 0 0) + 1.
Proof.
  apply (@filters_rate_bound srpc_basic 7 (mk_logger 2 0 0)).
  - cbn; lia.
  - cbn; lia.
  - vm_compute. reflexivity.
Defined.

Lemma create_log_task_drops_witness :
  let lg := mk_logger 1 7 1 in
  let ts := mk_timespec 0 7000000 in
  let span := @RPCSpan_new srpc_basic 0 0 in
  @create_log_task srpc_basic lg ts span = (lg, EmptyTask) /\
  @run_task srpc_basic (snd (@create_log_task srpc_basic lg ts span)) []
  = Some [].
Proof.
  apply (@create_log_task_drops srpc_basic (mk_logger 1 7 1)
           (mk_timespec 0 7000000) (@RPCSpan_new srpc_basic 0 0) []).
  - reflexivity.
  - right. split; [reflexivity | cbn; lia].
Defined.

(** * Further properties of the logging task *)

(** ** The length of a decimal rendering *)

Lemma string_of_uint_length (d : Decimal.uint) :
  String.length (NilEmpty.string_of_uint d)
  = N.to_nat (DecimalPos.Unsigned.usize d).
Proof.
  induction d; cbn [NilEmpty.string_of_uint String.length
                      DecimalPos.Unsigned.usize];
    rewrite ?Nnat.N2Nat.inj_succ, ?IHd; reflexivity.
Qed.

(** A numeral that starts with a digit other than 0 is at least the power
    of ten of its remaining length. *)
Lemma of_uint_leading (d d' : Decimal.uint) :
  d = Decimal.D1 d' \/ d = Decimal.D2 d' \/ d = Decimal.D3 d' \/
  d = Decimal.D4 d' \/ d = Decimal.D5 d' \/ d = Decimal.D6 d' \/
  d = Decimal.D7 d' \/ d = Decimal.D8 d' \/ d = Decimal.D9 d' ->
  (10 ^ DecimalPos.Unsigned.usize d' <= N.of_uint d)%N.
Proof.
  intros H. unfold N.of_uint.
  rewrite DecimalPos.Unsigned.of_uint_alt.
  decompose [or] H; subst d; unfold Decimal.rev; cbn [Decimal.revapp];
    rewrite DecimalPos.Unsigned.of_lu_revapp;
    cbn [DecimalPos.Unsigned.of_lu]; lia.
Qed.

(** The only numeral of a number that starts with 0 is 0 itself. *)
Lemma to_uint_D0 (n : N) (d' : Decimal.uint) :
  N.to_uint n = Decimal.D0 d' -> d' = Decimal.Nil.
Proof.
  intros E.
  pose proof (DecimalN.Unsigned.to_of (N.to_uint n)) as U.
  rewrite DecimalN.Unsigned.of_to, E, DecimalFacts.unorm_D0 in U.
  destruct d' as [| d'' | d'' | d'' | d'' | d'' | d'' | d'' | d'' | d''
                  | d'']; [reflexivity | ..];
    match goal with
    | U : _ = Decimal.unorm ?u |- _ =>
        assert (Hn : u <> Decimal.Nil) by discriminate;
        pose proof (DecimalFacts.nb_digits_unorm u Hn) as L;
        rewrite <- U in L; cbn [Decimal.nb_digits] in L; lia
    end.
Qed.

Lemma fmt_unsigned_length (v : Z) (k : nat) :
  (1 <= k)%nat -> 0 <= v < 10 ^ Z.of_nat k ->
  (String.length (fmt_unsigned v) <= k)%nat.
Proof.
  intros Hk Hv. unfold fmt_unsigned.
  set (n := Z.to_N v).
  assert (Hn : (n < 10 ^ N.of_nat k)%N).
  { unfold n. apply N2Z.inj_lt. rewrite Z2N.id by lia.
    rewrite N2Z.inj_pow, nat_N_Z. cbn. lia. }
  pose proof (DecimalN.Unsigned.of_to n) as OT.
  destruct (N.to_uint n) as [| d' | d' | d' | d' | d' | d' | d' | d' | d'
                             | d'] eqn:E.
  1: cbn; lia.
  1: { apply to_uint_D0 in E. subst d'. cbn. lia. }
  all: match goal with
       | |- (String.length (NilZero.string_of_uint ?d) <= _)%nat =>
           change (NilZero.string_of_uint d)
             with (NilEmpty.string_of_uint d);
           pose proof (of_uint_leading d d') as LB
       end;
    cbn [NilEmpty.string_of_uint String.length];
    rewrite string_of_uint_length;
    rewrite OT in LB;
    assert (LB' : (10 ^ DecimalPos.Unsigned.usize d' <= n)%N)
      by (apply LB; tauto);
    assert (DecimalPos.Unsigned.usize d' < N.of_nat k)%N
      by (apply (N.pow_lt_mono_r_iff 10); lia);
    lia.
Qed.

(** [%llu] of a [uint64_t] is at most 20 characters, [%u] of a
    [uint32_t] at most 10. *)
Lemma fmt_unsigned_length_64 (v : Z) :
  0 <= v < 2 ^ 64 -> (String.length (fmt_unsigned v) <= 20)%nat.
Proof.
  intros H. apply fmt_unsigned_length; [lia |].
  assert (2 ^ 64 <= 10 ^ Z.of_nat 20)
    by (apply Z.leb_le; vm_compute; reflexivity).
  lia.
Qed.

Lemma fmt_unsigned_length_32 (v : Z) :
  0 <= v < 2 ^ 32 -> (String.length (fmt_unsigned v) <= 10)%nat.
Proof.
  intros H. apply fmt_unsigned_length; [lia |].
  assert (2 ^ 32 <= 10 ^ Z.of_nat 10)
    by (apply Z.leb_le; vm_compute; reflexivity).
  lia.
Qed.

Lemma c_str_length (s : string) :
  (String.length (c_str s) <= String.length s)%nat.
Proof.
  induction s as [| c s IH]; cbn; [lia |].
  destruct (Ascii.eqb c NUL); cbn; lia.
Qed.

(** ** The formatting buffer *)

Section Buffer.
Context {K : RpcBasic}.

(** X14. [dispatch] stays within [char str[SPAN_LOG_MAX_LENGTH]] exactly
    when the record, without tag and line feed, is shorter than
    [SPAN_LOG_MAX_LENGTH]; from that length on one of its [sprintf] calls
    writes past the end of the buffer. *)
Theorem dispatch_defined_iff (span : RPCSpan) (err : list string) :
  dispatch span err <> None
  <-> (String.length (record_body span) < SPAN_LOG_MAX_LENGTH)%nat.
Proof.
  rewrite dispatch_formatted, formatted_record_body.
  destruct (Nat.leb_spec (String.length (record_body span) + 1)
              SPAN_LOG_MAX_LENGTH); split; intros; try lia;
    congruence.
Qed.

(** X15. A span whose numeric fields hold values of their C++ types and
    whose service name, method name and peer address together are shorter
    than [SPAN_LOG_MAX_LENGTH - 185] is formatted within the buffer,
    whichever optional fields it has: [dispatch] writes its record. The
    185 characters are the keys, separators and the longest renderings of
    the six numbers. *)
Theorem dispatch_within_buffer (span : RPCSpan) (err : list string) :
  0 <= trace_id span < 2 ^ 64 ->
  0 <= span_id span < 2 ^ 32 ->
  0 <= parent_span_id span < 2 ^ 32 ->
  0 <= start_time span < 2 ^ 64 ->
  0 <= end_time span < 2 ^ 64 ->
  0 <= cost span < 2 ^ 64 ->
  (String.length (service_name span) + String.length (method_name span)
   + String.length (remote_ip span) + 185 < SPAN_LOG_MAX_LENGTH)%nat ->
  dispatch span err = Some (err ++ [record_line span]).
Proof.
  intros Ht Hs Hp Hb He Hc Hfit.
  apply dispatch_record. rewrite <- formatted_record_body.
  pose proof (fmt_unsigned_length_64 _ Ht).
  pose proof (fmt_unsigned_length_32 _ Hs).
  pose proof (fmt_unsigned_length_32 _ Hp).
  pose proof (fmt_unsigned_length_64 _ Hb).
  pose proof (fmt_unsigned_length_64 _ He).
  pose proof (fmt_unsigned_length_64 _ Hc).
  pose proof (c_str_length (service_name span)).
  pose proof (c_str_length (method_name span)).
  pose proof (c_str_length (remote_ip span)).
  unfold formatted, head_text, parent_text, end_text, cost_text.
  destruct (parent_span_id span =? UINT_UNSET);
    destruct (end_time span =? UINT64_UNSET);
    destruct (cost span =? UINT64_UNSET);
    rewrite !length_append; cbn [String.length]; lia.
Qed.

End Buffer.

Lemma dispatch_within_buffer_witness :
  let span :=
    set_remote_ip
      (set_cost
         (set_end_time
            (set_start_time
               (set_parent_span_id
                  (set_span_id
                     (set_method_name
                        (set_service_name
                           (set_trace_id (@RPCSpan_new srpc_basic 0 0) 12)
                           "Echo") "echo") 7) 3) 1000) 1004) 4)
      "127.0.0.1" in
  @dispatch srpc_basic span [] = Some ([] ++ [@record_line srpc_basic span]).
Proof.
  apply (@dispatch_within_buffer srpc_basic).
  - cbn; lia.
  - cbn; lia.
  - cbn; lia.
  - cbn; lia.
  - cbn; lia.
  - cbn; lia.
  - apply Nat.ltb_lt. vm_compute. reflexivity.
Defined.
